(** * Google_search_agent.py: the plan / action / observe / output loop

    A shallow embedding of [src/Google_search_agent.py]:
    the two tool functions [get_weather] and [google_search], the tool
    registry [available_tools] and the dialogue loop [process_chat],
    together with the part of Python's [json] module the loop relies on
    ([json.loads], [json.dumps] with their default arguments).

    Python values are modelled as follows.
    - A [str] is the list of its Unicode code points ([pystr]).  As in
      CPython a [str] may hold surrogate code points.
    - A JSON value is the inductive [json]; a [dict] is an association
      list in insertion order whose keys are pairwise distinct.
    - A [float] is kept abstract (class [PyFloat]): the decoder turns a
      number token into a float with [float_of_token], the encoder prints
      it with [floatstr].
    - The outside world (the LLM endpoint, the HTTP endpoints, the process
      environment) is a record of oracles [World]; every call is logged in
      the trace of the running [State], and an oracle sees that trace, so
      that two calls with equal arguments may be answered differently.
    - An exception is the [Raise] outcome of a computation in the monad
      [M]; the state reached when it was raised is kept, because the
      session state mutated so far survives the exception. *)

From Stdlib Require Import List String Ascii Bool NArith ZArith Lia.
From Stdlib Require Import Decimal DecimalFacts DecimalPos DecimalN DecimalZ.
Import ListNotations.

Set Implicit Arguments.
Local Open Scope N_scope.

(** ** Python strings *)

Module PyStr.

Definition codepoint := N.
Definition pystr := list codepoint.

(** The string literals of the source file are UTF-8 text; [u] reads a
    literal of this file as the [str] it denotes. *)
Fixpoint utf8_decode (bs : list N) : pystr :=
  match bs with
  | [] => []
  | b0 :: r0 =>
    if b0 <? 0x80 then b0 :: utf8_decode r0
    else
      match r0 with
      | [] => []
      | b1 :: r1 =>
        if b0 <? 0xE0 then (b0 mod 32 * 64 + b1 mod 64) :: utf8_decode r1
        else
          match r1 with
          | [] => []
          | b2 :: r2 =>
            if b0 <? 0xF0
            then (b0 mod 16 * 4096 + b1 mod 64 * 64 + b2 mod 64)
                   :: utf8_decode r2
            else
              match r2 with
              | [] => []
              | b3 :: r3 =>
                (b0 mod 8 * 262144 + b1 mod 64 * 4096
                 + b2 mod 64 * 64 + b3 mod 64) :: utf8_decode r3
              end
          end
      end
  end.

Definition u (s : string) : pystr :=
  utf8_decode (map N_of_ascii (list_ascii_of_string s)).

(** [==] on two [str]. *)
Fixpoint str_eqb (a b : pystr) : bool :=
  match a, b with
  | [], [] => true
  | x :: a', y :: b' => (x =? y) && str_eqb a' b'
  | _, _ => false
  end.

(** [sep.join(parts)]. *)
Fixpoint join (sep : pystr) (parts : list pystr) : pystr :=
  match parts with
  | [] => []
  | [p] => p
  | p :: rest => p ++ sep ++ join sep rest
  end.

(** [str.isspace] on one character: the code points whose bidirectional
    class is WS, B or S, or whose category is Zs. *)
Definition isspace (c : codepoint) : bool :=
  ((0x09 <=? c) && (c <=? 0x0D)) || ((0x1C <=? c) && (c <=? 0x20))
  || (c =? 0x85) || (c =? 0xA0) || (c =? 0x1680)
  || ((0x2000 <=? c) && (c <=? 0x200A))
  || (c =? 0x2028) || (c =? 0x2029) || (c =? 0x202F)
  || (c =? 0x205F) || (c =? 0x3000).

Fixpoint lstrip (s : pystr) : pystr :=
  match s with
  | c :: r => if isspace c then lstrip r else s
  | [] => []
  end.

(** [s.strip()]. *)
Definition strip (s : pystr) : pystr :=
  List.rev (lstrip (List.rev (lstrip s))).

(** [s.startswith(p)] together with the remainder [s[len(p):]]. *)
Fixpoint strip_prefix (p s : pystr) : option pystr :=
  match p, s with
  | [], _ => Some s
  | x :: p', y :: s' => if x =? y then strip_prefix p' s' else None
  | _ :: _, [] => None
  end.

(** Decimal digits. *)
Definition is_digit (c : codepoint) : bool := (48 <=? c) && (c <=? 57).

Definition digit_of_char (c : codepoint) (d : uint) : uint :=
  if c =? 48 then D0 d else if c =? 49 then D1 d else if c =? 50 then D2 d
  else if c =? 51 then D3 d else if c =? 52 then D4 d
  else if c =? 53 then D5 d else if c =? 54 then D6 d
  else if c =? 55 then D7 d else if c =? 56 then D8 d else D9 d.

Fixpoint uint_of_digits (s : pystr) : uint :=
  match s with
  | [] => Nil
  | c :: r => digit_of_char c (uint_of_digits r)
  end.

Fixpoint digits_of_uint (d : uint) : pystr :=
  match d with
  | Nil => []
  | D0 d => 48 :: digits_of_uint d
  | D1 d => 49 :: digits_of_uint d
  | D2 d => 50 :: digits_of_uint d
  | D3 d => 51 :: digits_of_uint d
  | D4 d => 52 :: digits_of_uint d
  | D5 d => 53 :: digits_of_uint d
  | D6 d => 54 :: digits_of_uint d
  | D7 d => 55 :: digits_of_uint d
  | D8 d => 56 :: digits_of_uint d
  | D9 d => 57 :: digits_of_uint d
  end.

(** [str(n)] for an [int]. *)
Definition int_str (z : Z) : pystr :=
  match Z.to_int z with
  | Pos d => digits_of_uint d
  | Neg d => 45 :: digits_of_uint d
  end.

(** [int(s)] on a token [-?digits]. *)
Definition int_of_str (s : pystr) : Z :=
  match s with
  | c :: r =>
    if c =? 45 then Z.of_int (Neg (uint_of_digits r))
    else Z.of_int (Pos (uint_of_digits s))
  | [] => Z.of_int (Pos Nil)
  end.

End PyStr.
Import PyStr.

(** ** JSON values and Python's [json] module *)

(** Python's [float].  [float_of_token] is the value the decoder gives a
    number token with a fraction or an exponent and the constants [NaN],
    [Infinity] and [-Infinity]; [floatstr] is the text the encoder prints;
    [float_repr] is [repr] of a float and [str_repr] is [repr] of a
    [str], used when a value that is not a [str] is formatted by an
    f-string. *)
Class PyFloat := {
  pyfloat : Type;
  float_of_token : pystr -> pyfloat;
  floatstr : pyfloat -> pystr;
  float_repr : pyfloat -> pystr;
  str_repr : pystr -> pystr
}.

Module Json.
Section WithFloat.
Context {PF : PyFloat}.

(** What [json.loads] can return: [None], a [bool], an [int], a [float],
    a [str], a [list] or a [dict] with [str] keys. *)
#[warnings="-register-all"]
Inductive json : Type :=
| JNull
| JBool (b : bool)
| JInt (z : Z)
| JFloat (f : pyfloat)
| JStr (s : pystr)
| JArr (items : list json)
| JObj (members : list (pystr * json)).

Definition dict := list (pystr * json).

(** [d[k]], [None] standing for [KeyError]. *)
Fixpoint dict_lookup (d : dict) (k : pystr) : option json :=
  match d with
  | [] => None
  | (k', v) :: d' => if str_eqb k' k then Some v else dict_lookup d' k
  end.

(** [d.get(k)]: the value, or [None] when the key is missing. *)
Definition dict_get (d : dict) (k : pystr) : json :=
  match dict_lookup d k with
  | Some v => v
  | None => JNull
  end.

(** [d[k] = v]: a present key keeps its place, a new key goes last. *)
Fixpoint dict_set (d : dict) (k : pystr) (v : json) : dict :=
  match d with
  | [] => [(k, v)]
  | (k', v') :: d' =>
    if str_eqb k' k then (k', v) :: d' else (k', v') :: dict_set d' k v
  end.

(** [dict(pairs)]. *)
Definition dict_of_pairs (pairs : list (pystr * json)) : dict :=
  fold_left (fun d kv => dict_set d (fst kv) (snd kv)) pairs [].

(** *** The encoder: [json.dumps(obj)]

    Default arguments: [ensure_ascii=True], separators [", "] and
    [": "], no indentation, keys in insertion order. *)

Definition hexdigit (d : N) : codepoint :=
  if d <? 10 then 48 + d else 87 + d.

(** ['{0:04x}'.format(n)] for [n < 0x10000]. *)
Definition hex4 (n : N) : pystr :=
  [hexdigit (n / 4096 mod 16); hexdigit (n / 256 mod 16);
   hexdigit (n / 16 mod 16); hexdigit (n mod 16)].

(** The replacement of one character in [encode_basestring_ascii]: the
    short escapes, printable ASCII unchanged, [\uXXXX] below 0x10000 and
    a surrogate pair above. *)
Definition escape_char (c : codepoint) : pystr :=
  if c =? 34 then [92; 34]
  else if c =? 92 then [92; 92]
  else if c =? 10 then [92; 110]
  else if c =? 13 then [92; 114]
  else if c =? 9 then [92; 116]
  else if c =? 8 then [92; 98]
  else if c =? 12 then [92; 102]
  else if (32 <=? c) && (c <=? 126) then [c]
  else if c <? 0x10000 then 92 :: 117 :: hex4 c
  else
    let n := c - 0x10000 in
    (92 :: 117 :: hex4 (0xd800 + n / 1024 mod 1024))
      ++ 92 :: 117 :: hex4 (0xdc00 + n mod 1024).

Definition encode_basestring_ascii (s : pystr) : pystr :=
  34 :: flat_map escape_char s ++ [34].

Fixpoint dumps (v : json) : pystr :=
  match v with
  | JNull => u "null"
  | JBool true => u "true"
  | JBool false => u "false"
  | JInt z => int_str z
  | JFloat f => floatstr f
  | JStr s => encode_basestring_ascii s
  | JArr items => 91 :: join (u ", ") (map dumps items) ++ [93]
  | JObj members =>
    123 :: join (u ", ")
             (map (fun kv => encode_basestring_ascii (fst kv)
                               ++ u ": " ++ dumps (snd kv)) members)
        ++ [125]
  end.

(** *** The decoder: [json.loads(s)]

    The functions follow [json.decoder] and [json.scanner]: [scanstring],
    [JSONArray], [JSONObject], [scan_once] and [decode].  A result [None]
    stands for [JSONDecodeError]. *)

(** The [WHITESPACE] pattern: blank, tab, line feed, carriage return. *)
Definition is_ws (c : codepoint) : bool :=
  (c =? 32) || (c =? 9) || (c =? 10) || (c =? 13).

Fixpoint skip_ws (s : pystr) : pystr :=
  match s with
  | c :: r => if is_ws c then skip_ws r else s
  | [] => []
  end.

Definition hexval (c : codepoint) : option N :=
  if (48 <=? c) && (c <=? 57) then Some (c - 48)
  else if (97 <=? c) && (c <=? 102) then Some (c - 87)
  else if (65 <=? c) && (c <=? 70) then Some (c - 55)
  else None.

(** The four hexadecimal digits of a [\uXXXX] escape. *)
Definition decode_uXXXX (h1 h2 h3 h4 : codepoint) : option N :=
  match hexval h1, hexval h2, hexval h3, hexval h4 with
  | Some a, Some b, Some c, Some d => Some (((a * 16 + b) * 16 + c) * 16 + d)
  | _, _, _, _ => None
  end.

Definition is_high_surrogate (c : N) : bool := (0xd800 <=? c) && (c <=? 0xdbff).
Definition is_low_surrogate (c : N) : bool := (0xdc00 <=? c) && (c <=? 0xdfff).

Definition join_surrogates (hi lo : N) : N :=
  0x10000 + ((hi - 0xd800) * 1024 + (lo - 0xdc00)).

(** The character of a short escape [\c]. *)
Definition backslash (c : codepoint) : option codepoint :=
  if c =? 34 then Some 34
  else if c =? 92 then Some 92
  else if c =? 47 then Some 47
  else if c =? 98 then Some 8
  else if c =? 102 then Some 12
  else if c =? 110 then Some 10
  else if c =? 114 then Some 13
  else if c =? 116 then Some 9
  else None.

Definition cons_char (c : codepoint) (r : option (pystr * pystr))
  : option (pystr * pystr) :=
  match r with
  | Some (str, rest) => Some (c :: str, rest)
  | None => None
  end.

(** [scanstring(s, end, strict=True)], called after the opening quote:
    the decoded string and the text after the closing quote.  A control
    character, an unknown escape, a malformed [\uXXXX] and a missing
    closing quote are errors.  A high surrogate escape directly followed
    by a low surrogate escape is one character. *)
Fixpoint scanstring (s : pystr) : option (pystr * pystr) :=
  match s with
  | [] => None
  | c :: s1 =>
    if c =? 34 then Some ([], s1)
    else if c <? 32 then None
    else if c =? 92 then
      match s1 with
      | [] => None
      | e :: s2 =>
        if e =? 117 then
          match s2 with
          | h1 :: h2 :: h3 :: h4 :: s3 =>
            match decode_uXXXX h1 h2 h3 h4 with
            | None => None
            | Some uni =>
              match s3 with
              | b :: e' :: l1 :: l2 :: l3 :: l4 :: s4 =>
                if is_high_surrogate uni && (b =? 92) && (e' =? 117) then
                  match decode_uXXXX l1 l2 l3 l4 with
                  | None => None
                  | Some uni2 =>
                    if is_low_surrogate uni2
                    then cons_char (join_surrogates uni uni2) (scanstring s4)
                    else cons_char uni (scanstring s3)
                  end
                else cons_char uni (scanstring s3)
              | _ => cons_char uni (scanstring s3)
              end
            end
          | _ => None
          end
        else
          match backslash e with
          | Some ch => cons_char ch (scanstring s2)
          | None => None
          end
      end
    else cons_char c (scanstring s1)
  end.

(** The longest prefix of ASCII digits and what follows it. *)
Fixpoint span_digits (s : pystr) : pystr * pystr :=
  match s with
  | c :: r =>
    if is_digit c then let (ds, r') := span_digits r in (c :: ds, r')
    else ([], s)
  | [] => ([], [])
  end.

(** The integer part of [NUMBER_RE]: an optional minus sign, then either
    a single zero or a digit from 1 to 9 followed by any digits. *)
Definition match_integer (s : pystr) : option (pystr * pystr) :=
  let unsigned (t : pystr) :=
    match t with
    | c :: r =>
      if c =? 48 then Some ([48], r)
      else if is_digit c then let (ds, r') := span_digits r in Some (c :: ds, r')
      else None
    | [] => None
    end in
  match s with
  | c :: r =>
    if c =? 45 then
      match unsigned r with
      | Some (ds, r') => Some (45 :: ds, r')
      | None => None
      end
    else unsigned s
  | [] => None
  end.

(** The optional fraction of [NUMBER_RE]: a dot and at least one digit. *)
Definition match_frac (s : pystr) : pystr * pystr :=
  match s with
  | c :: r =>
    if c =? 46 then
      match span_digits r with
      | ([], _) => ([], s)
      | (ds, r') => (46 :: ds, r')
      end
    else ([], s)
  | [] => ([], [])
  end.

(** The optional exponent of [NUMBER_RE]: e or E, an optional sign and at
    least one digit. *)
Definition match_exp (s : pystr) : pystr * pystr :=
  match s with
  | c :: r =>
    if (c =? 101) || (c =? 69) then
      let (sign, r1) :=
        match r with
        | g :: r0 => if (g =? 45) || (g =? 43) then ([g], r0) else ([], r)
        | [] => ([], [])
        end in
      match span_digits r1 with
      | ([], _) => ([], s)
      | (ds, r') => (c :: sign ++ ds, r')
      end
    else ([], s)
  | [] => ([], [])
  end.

(** [NUMBER_RE.match]: the three groups and the text after the match. *)
Definition match_number (s : pystr) : option (pystr * pystr * pystr * pystr) :=
  match match_integer s with
  | None => None
  | Some (integer, r1) =>
    let (frac, r2) := match_frac r1 in
    let (exp, r3) := match_exp r2 in
    Some (integer, frac, exp, r3)
  end.

Definition is_nil (s : pystr) : bool :=
  match s with [] => true | _ => false end.

(** The scalar cases of [scan_once]: the literals, a number, and the
    constants the decoder accepts beside the JSON grammar. *)
Definition scan_scalar (s : pystr) : option (json * pystr) :=
  match strip_prefix (u "null") s with
  | Some r => Some (JNull, r)
  | None =>
  match strip_prefix (u "true") s with
  | Some r => Some (JBool true, r)
  | None =>
  match strip_prefix (u "false") s with
  | Some r => Some (JBool false, r)
  | None =>
  match match_number s with
  | Some (integer, frac, exp, r) =>
    if is_nil frac && is_nil exp then Some (JInt (int_of_str integer), r)
    else Some (JFloat (float_of_token (integer ++ frac ++ exp)), r)
  | None =>
  match strip_prefix (u "NaN") s with
  | Some r => Some (JFloat (float_of_token (u "NaN")), r)
  | None =>
  match strip_prefix (u "Infinity") s with
  | Some r => Some (JFloat (float_of_token (u "Infinity")), r)
  | None =>
  match strip_prefix (u "-Infinity") s with
  | Some r => Some (JFloat (float_of_token (u "-Infinity")), r)
  | None => None
  end end end end end end end.

(** The [while True] of [JSONArray]: a value, then [']'] or [','].
    [n] bounds the number of rounds. *)
Fixpoint array_loop (scan : pystr -> option (json * pystr)) (n : nat)
    (s : pystr) : option (list json * pystr) :=
  match n with
  | O => None
  | S n' =>
    match scan s with
    | None => None
    | Some (v, r) =>
      match skip_ws r with
      | [] => None
      | c :: r' =>
        if c =? 93 then Some ([v], r')
        else if c =? 44 then
          match array_loop scan n' (skip_ws r') with
          | Some (vs, r'') => Some (v :: vs, r'')
          | None => None
          end
        else None
      end
    end
  end.

(** [JSONArray], called after the opening bracket. *)
Definition JSONArray (scan : pystr -> option (json * pystr)) (n : nat)
    (s : pystr) : option (list json * pystr) :=
  match skip_ws s with
  | [] => None
  | c :: r => if c =? 93 then Some ([], r) else array_loop scan n (c :: r)
  end.

(** The [while True] of [JSONObject], entered after the opening quote
    of a key: the key, [':'], a value, then ['}'] or [','] and the
    opening quote of the next key. *)
Fixpoint object_loop (scan : pystr -> option (json * pystr)) (n : nat)
    (s : pystr) : option (list (pystr * json) * pystr) :=
  match n with
  | O => None
  | S n' =>
    match scanstring s with
    | None => None
    | Some (key, r0) =>
      match skip_ws r0 with
      | [] => None
      | c0 :: r1 =>
        if c0 =? 58 then
          match scan (skip_ws r1) with
          | None => None
          | Some (v, r2) =>
            match skip_ws r2 with
            | [] => None
            | c :: r3 =>
              if c =? 125 then Some ([(key, v)], r3)
              else if c =? 44 then
                match skip_ws r3 with
                | [] => None
                | q :: r4 =>
                  if q =? 34 then
                    match object_loop scan n' r4 with
                    | Some (kvs, r5) => Some ((key, v) :: kvs, r5)
                    | None => None
                    end
                  else None
                end
              else None
            end
          end
        else None
      end
    end
  end.

(** [JSONObject], called after the opening brace; the pairs go through
    [dict(pairs)]. *)
Definition JSONObject (scan : pystr -> option (json * pystr)) (n : nat)
    (s : pystr) : option (dict * pystr) :=
  match skip_ws s with
  | [] => None
  | c :: r =>
    if c =? 125 then Some ([], r)
    else if c =? 34 then
      match object_loop scan n r with
      | Some (pairs, r') => Some (dict_of_pairs pairs, r')
      | None => None
      end
    else None
  end.

(** [_scan_once].  [fuel] bounds the nesting depth; [loads] gives it the
    length of the text, which is never exhausted because every nested
    call is made after at least one character was consumed. *)
Fixpoint scan_once (fuel : nat) (s : pystr) : option (json * pystr) :=
  match fuel with
  | O => None
  | S fuel' =>
    match s with
    | [] => None
    | c :: r =>
      if c =? 34 then
        match scanstring r with
        | Some (str, r') => Some (JStr str, r')
        | None => None
        end
      else if c =? 123 then
        match JSONObject (scan_once fuel') fuel' r with
        | Some (d, r') => Some (JObj d, r')
        | None => None
        end
      else if c =? 91 then
        match JSONArray (scan_once fuel') fuel' r with
        | Some (l, r') => Some (JArr l, r')
        | None => None
        end
      else scan_scalar s
    end
  end.

(** [JSONDecoder.decode]: leading white space, one value, trailing white
    space, and nothing else. *)
Definition loads (s : pystr) : option json :=
  match scan_once (S (List.length s)) (skip_ws s) with
  | Some (v, r) => if is_nil (skip_ws r) then Some v else None
  | None => None
  end.

End WithFloat.
End Json.
Import Json.

(** ** The session state, the outside world and the effect monad *)

Module Runtime.

Inductive Role := system | user | assistant.

(** One entry of [st.session_state.messages]. *)
Record Message := { role : Role; content : pystr }.

Inductive exn :=
| JSONDecodeError
| KeyError (key : pystr)
| AttributeError
| TypeError
| RequestException
| APIError.

(** The widgets the loop writes to. *)
Inductive notice := st_error | st_info | st_success | st_markdown | st_warning.

Inductive event :=
| LLMCall (messages : list Message)
| HttpGet (url : pystr)
| Show (kind : notice) (text : pystr).

(** What [client.chat.completions.create(...)] gives back: the text
    [response.choices[0].message.content], no text ([None]), or a fault
    raised by the client. *)
Inductive completion := Reply (text : pystr) | NoContent | APIFault.

(** What [requests.get(url)] gives back when it does not raise. *)
Record response := { status_code : Z; text : pystr }.

Record World := {
  chat_completions_create : list event -> list Message -> completion;
  requests_get : list event -> pystr -> option response;
  getenv : pystr -> option pystr
}.

Record State := { messages : list Message; trace : list event }.

Inductive outcome (A : Type) :=
| Ok (a : A)
| Raise (e : exn).
Arguments Raise {A} e.

Definition M (A : Type) := State -> outcome A * State.

Definition ret {A} (a : A) : M A := fun st => (Ok a, st).

Definition raise {A} (e : exn) : M A := fun st => (Raise e, st).

Definition bind {A B} (c : M A) (k : A -> M B) : M B :=
  fun st =>
    match c st with
    | (Ok a, st') => k a st'
    | (Raise e, st') => (Raise e, st')
    end.

(** The state after one more event. *)
Definition logged (st : State) (e : event) : State :=
  {| messages := messages st; trace := trace st ++ [e] |}.

(** The state after one more message. *)
Definition appended (st : State) (r : Role) (c : pystr) : State :=
  {| messages := messages st ++ [{| role := r; content := c |}];
     trace := trace st |}.

Definition log (e : event) : M unit := fun st => (Ok tt, logged st e).

(** [st.session_state.messages.append({"role": r, "content": c})]. *)
Definition append_message (r : Role) (c : pystr) : M unit :=
  fun st => (Ok tt, appended st r c).

(** [st.error(text)], [st.info(text)], ... *)
Definition show (kind : notice) (text : pystr) : M unit := log (Show kind text).

End Runtime.
Import Runtime.

Declare Scope monad_scope.
Delimit Scope monad_scope with monad.
Notation "x <- c ;; k" := (bind c (fun x => k))
  (at level 61, c at next level, right associativity) : monad_scope.
Notation "c ;; k" := (bind c (fun _ => k))
  (at level 61, right associativity) : monad_scope.
Local Open Scope monad_scope.

(** ** The program *)

Section Agent.
Context {PF : PyFloat}.
Variable w : World.

(** [repr(v)], as an f-string prints the items of a list or a dict. *)
Fixpoint py_repr (v : json) : pystr :=
  match v with
  | JNull => u "None"
  | JBool true => u "True"
  | JBool false => u "False"
  | JInt z => int_str z
  | JFloat f => float_repr f
  | JStr s => str_repr s
  | JArr items => 91 :: join (u ", ") (map py_repr items) ++ [93]
  | JObj members =>
    123 :: join (u ", ")
             (map (fun kv => str_repr (fst kv) ++ u ": " ++ py_repr (snd kv))
                  members)
        ++ [125]
  end.

(** What [f"{v}"] prints: a [str] as it is, any other value by [str(v)]. *)
Definition py_str (v : json) : pystr :=
  match v with
  | JStr s => s
  | _ => py_repr v
  end.

(** [f"{os.getenv(name)}"]. *)
Definition getenv_str (name : pystr) : pystr :=
  match getenv w name with
  | Some v => v
  | None => u "None"
  end.

(** [requests.get(url)]. *)
Definition http_get (url : pystr) : M response :=
  fun st =>
    let st' := logged st (HttpGet url) in
    match requests_get w (trace st) url with
    | Some r => (Ok r, st')
    | None => (Raise RequestException, st')
    end.

(** Tool 1 (source lines 13-18). *)
Definition get_weather (city : json) : M pystr :=
  let url := u "https://wttr.in/" ++ py_str city ++ u "?format=%C+%t" in
  response <- http_get url ;;
  if (status_code response =? 200)%Z
  then ret (u "🌦️ The weather in **" ++ py_str city ++ u "** is `"
              ++ strip (text response) ++ u "`.")
  else ret (u "❌ Unable to fetch weather at the moment.").

(** [response.json()]. *)
Definition response_json (r : response) : M json :=
  match loads (text r) with
  | Some v => ret v
  | None => raise JSONDecodeError
  end.

(** [data.get("items", [])]: only a [dict] has [get]. *)
Definition get_items (data : json) : M json :=
  match data with
  | JObj d =>
    match dict_lookup d (u "items") with
    | Some v => ret v
    | None => ret (JArr [])
    end
  | _ => raise AttributeError
  end.

(** [v[:3]] as the sequence the [for] loop walks: the first three items
    of a [list], the first three characters of a [str]; no other JSON
    value can be sliced. *)
Definition slice3 (v : json) : M (list json) :=
  match v with
  | JArr items => ret (firstn 3 items)
  | JStr s => ret (map (fun c => JStr [c]) (firstn 3 s))
  | _ => raise TypeError
  end.

(** [item[key]] for a [str] key. *)
Definition subscript (item : json) (key : pystr) : M json :=
  match item with
  | JObj d =>
    match dict_lookup d key with
    | Some v => ret v
    | None => raise (KeyError key)
    end
  | _ => raise TypeError
  end.

(** The body of the [for] loop of [google_search] (source line 30). *)
Definition format_item (item : json) : M pystr :=
  title <- subscript item (u "title") ;;
  link <- subscript item (u "link") ;;
  ret (u "🔹 **" ++ py_str title ++ u "**" ++ [10] ++ u "🔗 " ++ py_str link).

Fixpoint for_each (items : list json) (results : list pystr) : M (list pystr) :=
  match items with
  | [] => ret results
  | item :: rest =>
    block <- format_item item ;;
    for_each rest (results ++ [block])
  end.

(** Tool 2 (source lines 21-32). *)
Definition google_search (query : json) : M pystr :=
  let api_key := getenv_str (u "GOOGLE_API_KEY") in
  let cse_id := getenv_str (u "GOOGLE_CSE_ID") in
  let url := u "https://www.googleapis.com/customsearch/v1?q=" ++ py_str query
               ++ u "&key=" ++ api_key ++ u "&cx=" ++ cse_id in
  response <- http_get url ;;
  if (status_code response =? 200)%Z
  then
    data <- response_json response ;;
    items <- get_items data ;;
    first3 <- slice3 items ;;
    results <- for_each first3 [] ;;
    let joined := join [10; 10] results in
    ret (if is_nil joined then u "No results found." else joined)
  else ret (u "❌ Search failed: " ++ int_str (status_code response)
              ++ u " - " ++ text response).

(** The tool registry (source lines 35-44). *)
Record Tool := { fn : json -> M pystr; description : pystr }.

Definition available_tools : list (pystr * Tool) :=
  [ (u "get_weather",
     {| fn := get_weather;
        description := u "Takes a city name and returns current weather." |});
    (u "google_search",
     {| fn := google_search;
        description := u "Takes a query and returns top 3 Google search results." |}) ].

Fixpoint registry_find (tools : list (pystr * Tool)) (name : pystr) : option Tool :=
  match tools with
  | [] => None
  | (k, t) :: rest => if str_eqb k name then Some t else registry_find rest name
  end.

(** [tool_name in available_tools], with the entry when it is there.  A
    [list] or a [dict] cannot be hashed; a value that is not a [str] is
    never equal to a key. *)
Definition find_tool (tool_name : json) : M (option Tool) :=
  match tool_name with
  | JStr name => ret (registry_find available_tools name)
  | JArr _ | JObj _ => raise TypeError
  | _ => ret None
  end.

(** [parsed.get(key)]: only a [dict] has [get]. *)
Definition py_get (parsed : json) (key : pystr) : M json :=
  match parsed with
  | JObj d => ret (dict_get d key)
  | _ => raise AttributeError
  end.

(** [step == "..."]. *)
Definition is_str (v : json) (s : pystr) : bool :=
  match v with
  | JStr s' => str_eqb s' s
  | _ => false
  end.

(** The LLM call (source lines 116-121). *)
Definition call_llm : M pystr :=
  fun st =>
    let st' := logged st (LLMCall (messages st)) in
    match chat_completions_create w (trace st) (messages st) with
    | Reply text => (Ok text, st')
    | NoContent => (Raise TypeError, st')
    | APIFault => (Raise APIError, st')
    end.

(** The text handed to [st.markdown] on an output step (lines 150-154). *)
Definition final_answer (content : pystr) : pystr :=
  [10] ++ u "                    <div style='background-color:#F0F8FF;padding:15px;border-radius:10px;border-left:5px solid #6A5ACD;'>"
  ++ [10] ++ u "                        <strong>🤖 Final Answer:</strong><br>" ++ content
  ++ [10] ++ u "                    </div>"
  ++ [10] ++ u "                ".

(** How one round of [while True] ends: [continue] (or the end of the
    body) or [break]. *)
Inductive control := Continue | Break.

(** The observe Step the loop builds (source lines 142-145). *)
Definition observe_step (tool_output : pystr) : json :=
  JObj [(u "step", JStr (u "observe")); (u "content", JStr tool_output)].

(** What one round does with the parsed reply (source lines 131-158). *)
Definition dispatch (parsed : json) : M control :=
  step <- py_get parsed (u "step") ;;
  if is_str step (u "plan") then
    content <- subscript parsed (u "content") ;;
    show st_info (u "📌 **Plan**: " ++ py_str content) ;;
    ret Continue
  else if is_str step (u "action") then
    tool_name <- py_get parsed (u "function") ;;
    tool_input <- py_get parsed (u "input") ;;
    found <- find_tool tool_name ;;
    match found with
    | Some tool =>
      tool_output <- fn tool tool_input ;;
      append_message assistant (dumps (observe_step tool_output)) ;;
      show st_success (u "📡 **Observation**: " ++ tool_output) ;;
      ret Continue
    | None => ret Continue
    end
  else if is_str step (u "output") then
    content <- subscript parsed (u "content") ;;
    show st_markdown (final_answer (py_str content)) ;;
    ret Break
  else
    show st_warning (u "⚠️ Unrecognized step.") ;;
    ret Break.

(** What one round does with the reply (source lines 123-130). *)
Definition handle_reply (reply : pystr) : M control :=
  match loads reply with
  | None =>
    show st_error (u "⚠️ LLM response was not in expected JSON format.") ;;
    append_message assistant reply ;;
    ret Break
  | Some parsed =>
    append_message assistant (dumps parsed) ;;
    dispatch parsed
  end.

(** One round of the [while True] loop (source lines 116-158). *)
Definition loop_body : M control :=
  reply <- call_llm ;;
  handle_reply reply.

(** A run of the loop observed for [fuel] rounds: still [Running], or
    [Finished] by [break] or by an exception nobody handles. *)
Inductive status := Running | Finished (r : outcome unit).

Fixpoint while_true (fuel : nat) (body : M control) (st : State) : status * State :=
  match fuel with
  | O => (Running, st)
  | S fuel' =>
    match body st with
    | (Ok Continue, st') => while_true fuel' body st'
    | (Ok Break, st') => (Finished (Ok tt), st')
    | (Raise e, st') => (Finished (Raise e), st')
    end
  end.

(** [process_chat()] (source lines 113-158); the spinner is not modelled. *)
Definition process_chat (fuel : nat) (st : State) : status * State :=
  while_true fuel loop_body st.

(** The trigger (source lines 161-163). *)
Definition on_ask (ask_btn : bool) (user_query : pystr) (fuel : nat)
    (st : State) : status * State :=
  if ask_btn && negb (is_nil user_query)
  then
    match append_message user user_query st with
    | (_, st') => process_chat fuel st'
    end
  else (Finished (Ok tt), st).

End Agent.

(** ** Definitions used by the statements *)

Section Statements.
Context {PF : PyFloat}.

Definition starts_with_digit (s : pystr) : bool :=
  match s with
  | c :: _ => is_digit c
  | [] => false
  end.

(** What the decoder reads back for one character the encoder wrote:
    the character itself when it is a code point (below 0x110000). *)
Definition wrap (c : codepoint) : codepoint :=
  if c <? 0x10000 then c else 0x10000 + (c - 0x10000) mod 1048576.

(** What the decoder reads back for a string the encoder wrote: a high
    surrogate directly followed by a low surrogate becomes one
    character. *)
Fixpoint reread (s : pystr) : pystr :=
  match s with
  | [] => []
  | c :: r =>
    if is_high_surrogate c then
      match r with
      | d :: r' =>
        if is_low_surrogate d then join_surrogates c d :: reread r'
        else c :: reread r
      | [] => [c]
      end
    else wrap c :: reread r
  end.

(** The text after a high surrogate escape does not begin with a low
    surrogate escape. *)
Definition no_low_escape (t : pystr) : bool :=
  match t with
  | b :: e' :: l1 :: l2 :: l3 :: l4 :: _ =>
    if (b =? 92) && (e' =? 117) then
      match decode_uXXXX l1 l2 l3 l4 with
      | Some uni2 => negb (is_low_surrogate uni2)
      | None => false
      end
    else true
  | _ => true
  end.

(** Strings that are read back unchanged: every character is a code
    point and no high surrogate is directly followed by a low one. *)
Fixpoint well_formed (s : pystr) : bool :=
  match s with
  | [] => true
  | c :: r =>
    (c <? 0x110000)
    && match r with
       | d :: _ => negb (is_high_surrogate c && is_low_surrogate d)
       | [] => true
       end
    && well_formed r
  end.

(** *** Values the decoder reads back *)

(** After a value the encoder writes a comma, a closing bracket, a
    closing brace, or nothing. *)
Definition delimited (rest : pystr) : bool :=
  match rest with
  | [] => true
  | c :: _ => (c =? 44) || (c =? 93) || (c =? 125)
  end.

(** The decoder reads back the float the encoder printed.  CPython
    guarantees it: [float.__repr__] is the shortest text that converts
    back to the same float, and [NaN], [Infinity], [-Infinity] are read
    as the constants they name. *)
Definition float_ok (f : pyfloat) : Prop :=
  forall fuel rest, delimited rest = true ->
    scan_once (S fuel) (floatstr f ++ rest) = Some (JFloat f, rest).

Fixpoint floats_of (v : json) : list pyfloat :=
  match v with
  | JFloat f => [f]
  | JArr items => flat_map floats_of items
  | JObj members => flat_map (fun kv => floats_of (snd kv)) members
  | _ => []
  end.

Definition floats_ok (v : json) : Prop := Forall float_ok (floats_of v).

(** A bound on the nesting depth and on the number of items of every
    container of a value. *)
Fixpoint weight (v : json) : nat :=
  match v with
  | JArr items => S (list_sum (map weight items))
  | JObj members => S (list_sum (map (fun kv => weight (snd kv)) members))
  | _ => 1
  end.

(** What [json.loads(json.dumps(v))] is. *)
Fixpoint reread_value (v : json) : json :=
  match v with
  | JStr s => JStr (reread s)
  | JArr items => JArr (map reread_value items)
  | JObj members =>
    JObj (dict_of_pairs
            (map (fun kv => (reread (fst kv), reread_value (snd kv))) members))
  | _ => v
  end.

Fixpoint distinct_keys (d : dict) : bool :=
  match d with
  | [] => true
  | (k, _) :: d' =>
    match dict_lookup d' k with
    | Some _ => false
    | None => distinct_keys d'
    end
  end.

(** The values [json.loads(json.dumps(v))] gives back unchanged: every
    string is well formed and the keys of every [dict] are distinct (as
    they are in any Python [dict]). *)
Fixpoint canonical (v : json) : bool :=
  match v with
  | JStr s => well_formed s
  | JArr items => forallb canonical items
  | JObj members =>
    forallb (fun kv => well_formed (fst kv) && canonical (snd kv)) members
    && distinct_keys members
  | _ => true
  end.
(** Where a value starts: not with white space, not with [']']. *)
Definition value_start (s : pystr) : Prop :=
  exists c t, s = c :: t /\ is_ws c = false /\ (c =? 93) = false.

Definition encode_member (kv : pystr * json) : pystr :=
  encode_basestring_ascii (fst kv) ++ u ": " ++ dumps (snd kv).

Definition reread_member (kv : pystr * json) : pystr * json :=
  (reread (fst kv), reread_value (snd kv)).

(** *** Relations between the states of a computation *)

(** The trace only grows. *)
Definition extends (st st' : State) : Prop :=
  exists tl, trace st' = trace st ++ tl.

(** The conversation is untouched. *)
Definition same_messages (st st' : State) : Prop :=
  messages st' = messages st.

(** Every run of [c] relates the state it starts in to the state it
    ends in, whether it returns or raises. *)
Definition preserves {A} (R : State -> State -> Prop) (c : M A) : Prop :=
  forall st, R st (snd (c st)).

(** The event is an LLM call. *)
Definition llm_event (e : event) : bool :=
  match e with
  | LLMCall _ => true
  | _ => false
  end.

(** *** The states a round goes through *)

(** After the LLM call of a round started in [st]. *)
Definition after_llm (st : State) : State := logged st (LLMCall (messages st)).

(** After the parsed reply was appended in its canonical form. *)
Definition after_reply (st : State) (parsed : json) : State :=
  appended (after_llm st) assistant (dumps parsed).

(** After a tool returned [tool_output] in state [st2]: the observe Step
    is appended and the observation is shown. *)
Definition after_observe (st2 : State) (tool_output : pystr) : State :=
  logged (appended st2 assistant (dumps (observe_step tool_output)))
         (Show st_success (u "📡 **Observation**: " ++ tool_output)).

(** After the loop gave up on a reply that is not JSON: the error is
    shown, then the raw reply is appended. *)
Definition after_parse_error (st : State) (reply : pystr) : State :=
  appended
    (logged (after_llm st)
            (Show st_error (u "⚠️ LLM response was not in expected JSON format.")))
    assistant reply.

(** What the specification says of a reply that is not a Step: the run
    stops normally and the reply is the message it appended. *)
Definition recovers_with_raw_text (w : World) (st : State) (reply : pystr) : Prop :=
  exists st',
    (forall fuel, process_chat w (S fuel) st = (Finished (Ok tt), st'))
    /\ messages st' = messages st ++ [ {| role := assistant; content := reply |} ].

(** A value [in] can look up in a [dict]: every JSON value but a [list]
    and a [dict]. *)
Definition hashable (v : json) : bool :=
  match v with
  | JArr _ | JObj _ => false
  | _ => true
  end.

(** *** The tool functions *)

(** The address [get_weather] fetches. *)
Definition weather_url (city : json) : pystr :=
  u "https://wttr.in/" ++ py_str city ++ u "?format=%C+%t".

(** The address [google_search] fetches. *)
Definition search_url (w : World) (query : json) : pystr :=
  u "https://www.googleapis.com/customsearch/v1?q=" ++ py_str query
    ++ u "&key=" ++ getenv_str w (u "GOOGLE_API_KEY")
    ++ u "&cx=" ++ getenv_str w (u "GOOGLE_CSE_ID").

(** [s] neither starts nor ends with white space. *)
Definition trimmed (s : pystr) : Prop :=
  (forall c r, s = c :: r -> isspace c = false)
  /\ (forall c r, s = r ++ [c] -> isspace c = false).

(** An item of the search result the tool can format. *)
Definition has_title_and_link (item : json) : Prop :=
  exists d title link,
    item = JObj d
    /\ dict_lookup d (u "title") = Some title
    /\ dict_lookup d (u "link") = Some link.

(** The two-line block of one item. *)
Definition result_block (item : json) : pystr :=
  match item with
  | JObj d =>
    u "🔹 **" ++ py_str (dict_get d (u "title")) ++ u "**" ++ [10]
      ++ u "🔗 " ++ py_str (dict_get d (u "link"))
  | _ => []
  end.

(** *** The messages a run appends *)

(** [s] is valid JSON: [json.loads(s)] does not raise. *)
Definition is_json (s : pystr) : bool :=
  match loads s with
  | Some _ => true
  | None => false
  end.

(** An assistant message whose content is valid JSON. *)
Definition json_message (m : Message) : Prop :=
  role m = assistant /\ is_json (content m) = true.

(** The conversation grew by assistant messages holding valid JSON. *)
Definition adds_json (st st' : State) : Prop :=
  exists app, messages st' = messages st ++ app /\ Forall json_message app.

(** *** The Step of the specification

    The program has no type for a Step: a Step is the [dict] the loop
    reads a parsed reply as, and the [dict] it builds for an observation
    (source lines 142-145).  The record below is the Step of the data
    model of the specification; [step_to_json] builds the [dict] the way
    the source builds the observe Step, and [step_of_json] reads the four
    fields the way the loop reads them ([get] for "step", "function" and
    "input", indexing for "content"). *)
Inductive StepTag := plan | action | observe | output.

Record Step := {
  step_tag : StepTag;
  step_content : pystr;
  step_function : option pystr;
  step_input : option pystr
}.

Definition tag_str (t : StepTag) : pystr :=
  match t with
  | plan => u "plan"
  | action => u "action"
  | observe => u "observe"
  | output => u "output"
  end.

Definition optional_member (key : pystr) (o : option pystr) : dict :=
  match o with
  | Some s => [(key, JStr s)]
  | None => []
  end.

Definition step_to_json (s : Step) : json :=
  JObj ([(u "step", JStr (tag_str (step_tag s)));
         (u "content", JStr (step_content s))]
          ++ optional_member (u "function") (step_function s)
          ++ optional_member (u "input") (step_input s)).

Definition tag_of_json (v : json) : option StepTag :=
  if is_str v (u "plan") then Some plan
  else if is_str v (u "action") then Some action
  else if is_str v (u "observe") then Some observe
  else if is_str v (u "output") then Some output
  else None.

(** An optional string field: [None] (also for a missing key) or a
    [str]. *)
Definition optional_str (v : json) : option (option pystr) :=
  match v with
  | JNull => Some None
  | JStr s => Some (Some s)
  | _ => None
  end.

Definition step_of_json (v : json) : option Step :=
  match v with
  | JObj d =>
    match tag_of_json (dict_get d (u "step")),
          dict_lookup d (u "content"),
          optional_str (dict_get d (u "function")),
          optional_str (dict_get d (u "input")) with
    | Some t, Some (JStr c), Some f, Some i =>
      Some {| step_tag := t; step_content := c;
              step_function := f; step_input := i |}
    | _, _, _, _ => None
    end
  | _ => None
  end.

(** A JSON text matches the Step shape. *)
Definition matches_step_shape (s : pystr) : bool :=
  match loads s with
  | Some v => match step_of_json v with Some _ => true | None => false end
  | None => false
  end.

(** Serializing a Step and parsing the text back. *)
Definition step_round_trip (s : Step) : option Step :=
  match loads (dumps (step_to_json s)) with
  | Some v => step_of_json v
  | None => None
  end.

Definition optional_well_formed (o : option pystr) : bool :=
  match o with
  | Some s => well_formed s
  | None => true
  end.

(** The strings of a Step are well formed: every character is a code
    point and no high surrogate is directly followed by a low
    surrogate. *)
Definition step_well_formed (s : Step) : bool :=
  well_formed (step_content s)
  && optional_well_formed (step_function s)
  && optional_well_formed (step_input s).

(** *** Statements about whole runs *)

(** The key an item of the search answer lacks, in the order the tool
    reads them. *)
Definition missing_key (d : dict) : option pystr :=
  match dict_lookup d (u "title") with
  | None => Some (u "title")
  | Some _ =>
    match dict_lookup d (u "link") with
    | None => Some (u "link")
    | Some _ => None
    end
  end.

(** The conversation grew by assistant messages. *)
Definition adds_assistant (st st' : State) : Prop :=
  exists app,
    messages st' = messages st ++ app
    /\ Forall (fun m => role m = assistant) app.

(** The trace and the conversation grew, and every conversation sent to
    the LLM meanwhile lies between the conversation at the start and the
    conversation at the end. *)
Definition replays (st st' : State) : Prop :=
  exists tl app,
    trace st' = trace st ++ tl
    /\ messages st' = messages st ++ app
    /\ forall ms, In (LLMCall ms) tl ->
         (exists a, ms = messages st ++ a)
         /\ (exists b, messages st' = ms ++ b).

(** A scanner that consumes at least one character when it succeeds. *)
Definition shrinking {A} (scan : pystr -> option (A * pystr)) : Prop :=
  forall s v r, scan s = Some (v, r) -> (List.length r < List.length s)%nat.

End Statements.

(** ** Scenarios

    Concrete worlds and states on which the statements below are
    exercised.  In these scenarios every float is the one value [tt],
    printed [NaN]; no scenario holds a float. *)

Definition demo_float : PyFloat :=
  {| pyfloat := unit;
     float_of_token := fun _ => tt;
     floatstr := fun _ => u "NaN";
     float_repr := fun _ => u "nan";
     str_repr := fun s => 39 :: s ++ [39] |}.

Module Demo.
#[local] Existing Instance demo_float.

(** A JSON text written with apostrophes where the text has double
    quotes. *)
Definition jsonlit (s : string) : pystr :=
  map (fun c => if c =? 39 then 34 else c) (u s).

Definition is_llm_call (e : event) : bool :=
  match e with
  | LLMCall _ => true
  | _ => false
  end.

(** A world whose LLM gives the scripted replies in turn, then fails;
    every HTTP request gets the same answer; the environment is empty. *)
Definition scripted (replies : list pystr) (answer : option response) : World :=
  {| chat_completions_create :=
       fun tr _ =>
         match nth_error replies (List.length (filter is_llm_call tr)) with
         | Some r => Reply r
         | None => APIFault
         end;
     requests_get := fun _ _ => answer;
     getenv := fun _ => None |}.

(** The session after the user asked for the weather. *)
Definition st0 : State :=
  {| messages := [ {| role := system; content := u "You are a helpful AI assistant." |};
                   {| role := user; content := u "What's the weather in Lahore?" |} ];
     trace := [] |}.

Definition sunny : response := {| status_code := 200; text := u "Sunny +25°C" |}.
Definition sunny_newline : response :=
  {| status_code := 200; text := u "Sunny +25°C" ++ [10] |}.
Definition not_found : response := {| status_code := 404; text := u "Not Found" |}.

(** Scenario A: the model asks for the weather tool. *)
Definition reply_action : pystr :=
  jsonlit "{'step':'action','function':'get_weather','input':'Lahore'}".
Definition parsed_action : dict :=
  [(u "step", JStr (u "action")); (u "function", JStr (u "get_weather"));
   (u "input", JStr (u "Lahore"))].
Definition world_a : World := scripted [reply_action] (Some sunny).
Definition lahore_sentence : pystr :=
  u "🌦️ The weather in **Lahore** is `Sunny +25°C`.".
Definition weather_tool : Tool :=
  {| fn := get_weather world_a;
     description := u "Takes a city name and returns current weather." |}.

(** The model asks for a tool that is not registered. *)
Definition reply_unknown : pystr :=
  jsonlit "{'step':'action','function':'get_time','input':'Lahore'}".
Definition parsed_unknown : dict :=
  [(u "step", JStr (u "action")); (u "function", JStr (u "get_time"));
   (u "input", JStr (u "Lahore"))].
Definition world_unknown : World := scripted [reply_unknown] (Some sunny).

(** The model gives its final answer. *)
Definition reply_output : pystr :=
  jsonlit "{'step':'output','content':'It is sunny in Lahore.'}".
Definition parsed_output : dict :=
  [(u "step", JStr (u "output")); (u "content", JStr (u "It is sunny in Lahore."))].
Definition world_output : World := scripted [reply_output] None.

(** The model sends a plan without content. *)
Definition reply_bare_plan : pystr := jsonlit "{'step':'plan'}".
Definition world_bare_plan : World := scripted [reply_bare_plan] None.

(** Scenario D: the model answers with the bare word hello. *)
Definition world_hello : World := scripted [u "hello"] None.

(** The model answers with an empty object, written with a blank. *)
Definition world_blank_object : World := scripted [u "{ }"] None.

(** The model answers with an empty object. *)
Definition world_empty_object : World := scripted [u "{}"] None.

(** The model answers with a number. *)
Definition world_number : World := scripted [u "42"] None.

(** The model plans, asks for the weather, and answers. *)
Definition world_full : World :=
  scripted [jsonlit "{'step':'plan','content':'Look up the weather.'}";
            reply_action; reply_output] (Some sunny).

(** Scenario C and a body with a final line feed. *)
Definition world_404 : World := scripted [] (Some not_found).
Definition world_newline : World := scripted [] (Some sunny_newline).

(** A search answer with four items. *)
Definition search_body : pystr :=
  jsonlit "{'items':[{'title':'A','link':'http://a'},{'title':'B','link':'http://b'},{'title':'C','link':'http://c'},{'title':'D'}]}".
Definition search_item (title link : string) : json :=
  JObj [(u "title", JStr (u title)); (u "link", JStr (u link))].
Definition search_items : list json :=
  [search_item "A" "http://a"; search_item "B" "http://b";
   search_item "C" "http://c"; JObj [(u "title", JStr (u "D"))]].
Definition search_answer : response := {| status_code := 200; text := search_body |}.
Definition world_search : World := scripted [] (Some search_answer).

(** Steps. *)
Definition step_observe : Step :=
  {| step_tag := observe; step_content := lahore_sentence;
     step_function := None; step_input := None |}.
Definition step_surrogates : Step :=
  {| step_tag := output; step_content := [0xD83C; 0xDF26];
     step_function := None; step_input := None |}.

(** The scenarios of the further properties. *)

Definition reply_plan : pystr :=
  jsonlit "{'step':'plan','content':'Look up the weather.'}".
Definition parsed_plan : dict :=
  [(u "step", JStr (u "plan")); (u "content", JStr (u "Look up the weather."))].

(** An LLM that answers every call with the same plan. *)
Definition world_always_plan : World :=
  {| chat_completions_create := fun _ _ => Reply reply_plan;
     requests_get := fun _ _ => None;
     getenv := fun _ => None |}.

(** The model names its tool by a list. *)
Definition reply_list_function : pystr :=
  jsonlit "{'step':'action','function':['get_weather'],'input':'Lahore'}".
Definition parsed_list_function : dict :=
  [(u "step", JStr (u "action")); (u "function", JArr [JStr (u "get_weather")]);
   (u "input", JStr (u "Lahore"))].
Definition world_list_function : World := scripted [reply_list_function] (Some sunny).

(** The LLM client fails on the first call. *)
Definition world_no_llm : World := scripted [] None.

(** The search endpoint answers with a page that is not JSON. *)
Definition html_page : response := {| status_code := 200; text := u "<html></html>" |}.
Definition world_html : World := scripted [] (Some html_page).
Definition reply_search : pystr :=
  jsonlit "{'step':'action','function':'google_search','input':'rocq'}".
Definition parsed_search : dict :=
  [(u "step", JStr (u "action")); (u "function", JStr (u "google_search"));
   (u "input", JStr (u "rocq"))].
Definition world_search_html : World := scripted [reply_search] (Some html_page).
Definition search_tool : Tool :=
  {| fn := google_search world_search_html;
     description := u "Takes a query and returns top 3 Google search results." |}.

(** A search answer whose second item has no link. *)
Definition broken_body : pystr :=
  jsonlit "{'items':[{'title':'A','link':'http://a'},{'title':'B'},{'title':'C','link':'http://c'}]}".
Definition broken_answer : response := {| status_code := 200; text := broken_body |}.
Definition world_broken : World := scripted [] (Some broken_answer).

(** A nested value without floats. *)
Definition nested_value : json :=
  JArr [JInt (-12); JStr (u "é🌦"); JNull;
        JObj [(u "k", JArr []); (u "b", JBool true)]].

End Demo.

(** ** Facts *)

Unset Implicit Arguments.

Section Facts.
Context {PF : PyFloat}.

(** ** Facts about strings *)

Lemma str_eqb_refl (a : pystr) : str_eqb a a = true.
Proof. induction a as [|x a IH]; simpl; [reflexivity|]. now rewrite N.eqb_refl. Qed.

Lemma str_eqb_eq (a b : pystr) : str_eqb a b = true <-> a = b.
Proof.
  split; [|intros ->; apply str_eqb_refl].
  revert b; induction a as [|x a IH]; intros [|y b]; simpl; try discriminate; auto.
  intros H; apply andb_true_iff in H as [H1 H2].
  apply N.eqb_eq in H1; subst; f_equal; auto.
Qed.

Lemma str_eqb_neq (a b : pystr) : str_eqb a b = false <-> a <> b.
Proof.
  split.
  - intros H E; apply str_eqb_eq in E; congruence.
  - intros H; destruct (str_eqb a b) eqn:E; [|reflexivity].
    apply str_eqb_eq in E; contradiction.
Qed.

Lemma strip_prefix_app (p s : pystr) : strip_prefix p (p ++ s) = Some s.
Proof. induction p as [|x p IH]; simpl; [reflexivity|]. now rewrite N.eqb_refl. Qed.

(** *** Decimal numerals *)

Lemma uint_of_digits_of_uint (d : uint) : uint_of_digits (digits_of_uint d) = d.
Proof. induction d; simpl; unfold digit_of_char; simpl; congruence. Qed.

Lemma span_digits_of_uint (d : uint) (rest : pystr) :
  starts_with_digit rest = false ->
  span_digits (digits_of_uint d ++ rest) = (digits_of_uint d, rest).
Proof.
  intros Hr; induction d; simpl; try (rewrite IHd; reflexivity).
  destruct rest as [|c r]; simpl in *; [reflexivity|now rewrite Hr].
Qed.

Lemma unorm_fixed_head (d d1 : uint) : unorm d = d -> d <> zero -> d <> D0 d1.
Proof.
  intros Hu Hz ->.
  rewrite unorm_D0 in Hu.
  destruct (uint_eq_dec d1 Nil) as [->|Hn]; [now apply Hz|].
  pose proof (nb_digits_unorm d1 Hn) as Hle.
  rewrite Hu in Hle; simpl in Hle; lia.
Qed.

Lemma pos_to_uint_head (p : positive) (d1 : uint) : Pos.to_uint p <> D0 d1.
Proof.
  apply unorm_fixed_head.
  - rewrite <- (DecimalPos.Unsigned.to_of (Pos.to_uint p)).
    now rewrite DecimalPos.Unsigned.of_to.
  - apply DecimalPos.Unsigned.to_uint_nonzero.
Qed.

Lemma pos_to_uint_nonnil (p : positive) : Pos.to_uint p <> Nil.
Proof. apply DecimalPos.Unsigned.to_uint_nonnil. Qed.

Lemma int_of_str_int_str (z : Z) : int_of_str (int_str z) = z.
Proof.
  transitivity (Z.of_int (Z.to_int z)); [|apply DecimalZ.of_to].
  unfold int_str, int_of_str.
  destruct (Z.to_int z) as [d|d] eqn:E.
  - destruct (digits_of_uint d) as [|c r] eqn:Ed.
    + rewrite <- (uint_of_digits_of_uint d), Ed; reflexivity.
    + assert (Hc : (c =? 45) = false).
      { destruct d; simpl in Ed; inversion Ed; reflexivity. }
      rewrite Hc, <- Ed, uint_of_digits_of_uint; reflexivity.
  - simpl. now rewrite uint_of_digits_of_uint.
Qed.

(** The text of an integer is a token of the number grammar. *)
Lemma match_integer_int_str (z : Z) (rest : pystr) :
  starts_with_digit rest = false ->
  match_integer (int_str z ++ rest) = Some (int_str z, rest).
Proof.
  intros Hr.
  assert (Hpos : forall p, match_integer (digits_of_uint (Pos.to_uint p) ++ rest)
                           = Some (digits_of_uint (Pos.to_uint p), rest)).
  { intros p. pose proof (pos_to_uint_head p) as Hh.
    pose proof (pos_to_uint_nonnil p) as Hn.
    destruct (Pos.to_uint p) as [|d|d|d|d|d|d|d|d|d|d]; simpl;
      try (now rewrite span_digits_of_uint); [congruence|].
    exfalso; now apply (Hh d). }
  unfold int_str.
  destruct z as [|p|p]; simpl.
  - reflexivity.
  - apply Hpos.
  - specialize (Hpos p).
    pose proof (pos_to_uint_head p) as Hh. pose proof (pos_to_uint_nonnil p) as Hn.
    destruct (Pos.to_uint p) as [|d|d|d|d|d|d|d|d|d|d]; simpl in *;
      try (now rewrite span_digits_of_uint); [congruence|].
    exfalso; now apply (Hh d).
Qed.

(** *** String escapes *)

(** [lia] after the quotients and remainders are made opaque. *)
Ltac hide_divmod :=
  repeat match goal with
         | |- context [N.modulo ?a ?b] =>
           let x := fresh "r" in set (x := N.modulo a b) in *; clearbody x
         | H : context [N.modulo ?a ?b] |- _ =>
           let x := fresh "r" in set (x := N.modulo a b) in *; clearbody x
         | |- context [N.div ?a ?b] =>
           let x := fresh "q" in set (x := N.div a b) in *; clearbody x
         | H : context [N.div ?a ?b] |- _ =>
           let x := fresh "q" in set (x := N.div a b) in *; clearbody x
         end.
Ltac dlia := hide_divmod; lia.

Lemma hexval_hexdigit (d : N) : d < 16 -> hexval (hexdigit d) = Some d.
Proof.
  intros H. unfold hexval, hexdigit.
  destruct (d <? 10) eqn:E.
  - apply N.ltb_lt in E.
    replace ((48 <=? 48 + d) && (48 + d <=? 57)) with true.
    + f_equal; lia.
    + symmetry; apply andb_true_iff; split; apply N.leb_le; lia.
  - apply N.ltb_ge in E.
    replace ((48 <=? 87 + d) && (87 + d <=? 57)) with false.
    + replace ((97 <=? 87 + d) && (87 + d <=? 102)) with true.
      * f_equal; lia.
      * symmetry; apply andb_true_iff; split; apply N.leb_le; lia.
    + symmetry; apply andb_false_iff; right; apply N.leb_gt; lia.
Qed.

Lemma base16_digits (n : N) :
  n < 65536 ->
  ((n / 16 / 16 / 16 mod 16 * 16 + n / 16 / 16 mod 16) * 16 + n / 16 mod 16) * 16
  + n mod 16 = n.
Proof.
  intros H.
  pose proof (N.div_mod n 16). pose proof (N.div_mod (n / 16) 16).
  pose proof (N.div_mod (n / 16 / 16) 16).
  pose proof (N.div_mod (n / 16 / 16 / 16) 16).
  pose proof (N.mod_lt n 16). pose proof (N.mod_lt (n / 16) 16).
  pose proof (N.mod_lt (n / 16 / 16) 16).
  pose proof (N.mod_lt (n / 16 / 16 / 16) 16).
  generalize dependent (n / 16 / 16 / 16 mod 16).
  generalize dependent (n / 16 / 16 / 16 / 16).
  generalize dependent (n / 16 / 16 mod 16).
  generalize dependent (n / 16 / 16 / 16).
  generalize dependent (n / 16 mod 16). generalize dependent (n / 16 / 16).
  generalize dependent (n mod 16). generalize dependent (n / 16).
  intros; lia.
Qed.

Lemma decode_hex4 (n : N) :
  n < 65536 ->
  decode_uXXXX (hexdigit (n / 4096 mod 16)) (hexdigit (n / 256 mod 16))
               (hexdigit (n / 16 mod 16)) (hexdigit (n mod 16)) = Some n.
Proof.
  intros H. unfold decode_uXXXX.
  rewrite !hexval_hexdigit by (apply N.mod_lt; discriminate).
  f_equal.
  replace (n / 4096) with (n / 16 / 16 / 16)
    by (rewrite !N.Div0.div_div; reflexivity).
  replace (n / 256) with (n / 16 / 16)
    by (rewrite !N.Div0.div_div; reflexivity).
  now apply base16_digits.
Qed.

(** The unfolding of [scanstring] on a [\uXXXX] escape. *)
Lemma scanstring_u (c : N) (t : pystr) :
  c < 65536 ->
  scanstring (92 :: 117 :: hex4 c ++ t) =
  match t with
  | b :: e' :: l1 :: l2 :: l3 :: l4 :: s4 =>
    if is_high_surrogate c && (b =? 92) && (e' =? 117) then
      match decode_uXXXX l1 l2 l3 l4 with
      | None => None
      | Some uni2 =>
        if is_low_surrogate uni2
        then cons_char (join_surrogates c uni2) (scanstring s4)
        else cons_char c (scanstring t)
      end
    else cons_char c (scanstring t)
  | _ => cons_char c (scanstring t)
  end.
Proof.
  intros H. unfold hex4.
  change (scanstring (92 :: 117 :: ?x)) with
    (match x with
     | h1 :: h2 :: h3 :: h4 :: s3 =>
       match decode_uXXXX h1 h2 h3 h4 with
       | None => None
       | Some uni =>
         match s3 with
         | b :: e' :: l1 :: l2 :: l3 :: l4 :: s4 =>
           if is_high_surrogate uni && (b =? 92) && (e' =? 117) then
             match decode_uXXXX l1 l2 l3 l4 with
             | None => None
             | Some uni2 =>
               if is_low_surrogate uni2
               then cons_char (join_surrogates uni uni2) (scanstring s4)
               else cons_char uni (scanstring s3)
             end
           else cons_char uni (scanstring s3)
         | _ => cons_char uni (scanstring s3)
         end
       end
     | _ => None
     end).
  cbn [List.app]. rewrite decode_hex4 by assumption. reflexivity.
Qed.

(** A [\uXXXX] escape that is not a high surrogate is read back alone. *)
Lemma scanstring_u_single (c : N) (t : pystr) :
  c < 65536 -> is_high_surrogate c = false ->
  scanstring (92 :: 117 :: hex4 c ++ t) = cons_char c (scanstring t).
Proof.
  intros H Hh. rewrite scanstring_u by assumption. rewrite Hh.
  destruct t as [|b [|e' [|l1 [|l2 [|l3 [|l4 s4]]]]]]; reflexivity.
Qed.

Lemma scanstring_plain (c : codepoint) (t : pystr) :
  (c =? 34) = false -> (c <? 32) = false -> (c =? 92) = false ->
  scanstring (c :: t) = cons_char c (scanstring t).
Proof. intros H1 H2 H3. simpl. now rewrite H1, H2, H3. Qed.

Lemma escape_char_surrogate (c : codepoint) :
  0xd800 <= c <= 0xdfff -> escape_char c = 92 :: 117 :: hex4 c.
Proof.
  intros H. unfold escape_char.
  repeat match goal with
         | |- context [?a =? ?b] =>
           destruct (N.eqb_spec a b); [exfalso; lia|]
         end.
  destruct (N.leb_spec 32 c); [|exfalso; lia].
  destruct (N.leb_spec c 126); [exfalso; lia|]. simpl.
  destruct (N.ltb_spec c 65536); [reflexivity|exfalso; lia].
Qed.

Lemma surrogate_halves (n : N) :
  (n / 1024 mod 1024) * 1024 + n mod 1024 = n mod 1048576.
Proof.
  change 1048576 with (1024 * 1024).
  rewrite N.Div0.mod_mul_r. dlia.
Qed.

(** A character that is not a high surrogate is read back by itself. *)
Lemma scanstring_escape_single (c : codepoint) (t : pystr) :
  is_high_surrogate c = false ->
  scanstring (escape_char c ++ t) = cons_char (wrap c) (scanstring t).
Proof.
  intros Hh. unfold escape_char.
  destruct (N.eqb_spec c 34) as [->|H34]; [reflexivity|].
  destruct (N.eqb_spec c 92) as [->|H92]; [reflexivity|].
  destruct (N.eqb_spec c 10) as [->|H10]; [reflexivity|].
  destruct (N.eqb_spec c 13) as [->|H13]; [reflexivity|].
  destruct (N.eqb_spec c 9) as [->|H9]; [reflexivity|].
  destruct (N.eqb_spec c 8) as [->|H8]; [reflexivity|].
  destruct (N.eqb_spec c 12) as [->|H12]; [reflexivity|].
  destruct ((32 <=? c) && (c <=? 126)) eqn:Hp.
  - apply andb_true_iff in Hp as [Hp1 Hp2].
    apply N.leb_le in Hp1, Hp2.
    assert (Hw : wrap c = c).
    { unfold wrap. destruct (N.ltb_spec c 65536); [reflexivity|lia]. }
    rewrite Hw. cbn [List.app].
    apply scanstring_plain.
    + now apply N.eqb_neq.
    + apply N.ltb_ge; lia.
    + now apply N.eqb_neq.
  - destruct (N.ltb_spec c 65536) as [Hlt|Hge].
    + assert (Hw : wrap c = c).
      { unfold wrap. destruct (N.ltb_spec c 65536); [reflexivity|lia]. }
      rewrite Hw. cbn [List.app]. now apply scanstring_u_single.
    + cbv zeta.
      remember (c - 65536) as n eqn:En.
      assert (B1 : n / 1024 mod 1024 < 1024) by (apply N.mod_lt; discriminate).
      assert (B2 : n mod 1024 < 1024) by (apply N.mod_lt; discriminate).
      remember (55296 + n / 1024 mod 1024) as hi eqn:Ehi.
      remember (56320 + n mod 1024) as lo eqn:Elo.
      assert (Hhi : hi < 65536) by dlia.
      assert (Hlo : lo < 65536) by dlia.
      rewrite <- app_assoc. cbn [List.app].
      rewrite scanstring_u by assumption.
      unfold hex4 at 1. cbn [List.app].
      rewrite decode_hex4 by assumption.
      assert (E1 : is_high_surrogate hi = true).
      { unfold is_high_surrogate. apply andb_true_iff; split; apply N.leb_le; dlia. }
      assert (E2 : is_low_surrogate lo = true).
      { unfold is_low_surrogate. apply andb_true_iff; split; apply N.leb_le; dlia. }
      rewrite E1, E2. simpl andb. cbv iota.
      f_equal. unfold join_surrogates, wrap.
      destruct (N.ltb_spec c 65536); [lia|].
      rewrite <- En, <- surrogate_halves. dlia.
Qed.

Lemma scanstring_high_alone (c : codepoint) (t : pystr) :
  is_high_surrogate c = true -> no_low_escape t = true ->
  scanstring (escape_char c ++ t) = cons_char c (scanstring t).
Proof.
  intros Hh Hn.
  assert (Hr : 0xd800 <= c <= 0xdfff).
  { unfold is_high_surrogate in Hh. apply andb_true_iff in Hh as [A B].
    apply N.leb_le in A, B. lia. }
  rewrite escape_char_surrogate by assumption. cbn [List.app].
  rewrite scanstring_u by lia. rewrite Hh.
  destruct t as [|b [|e' [|l1 [|l2 [|l3 [|l4 s4]]]]]]; try reflexivity.
  unfold no_low_escape in Hn. simpl andb.
  destruct ((b =? 92) && (e' =? 117)); [|reflexivity].
  destruct (decode_uXXXX l1 l2 l3 l4) as [uni2|]; [|discriminate].
  destruct (is_low_surrogate uni2); [discriminate|reflexivity].
Qed.

Lemma scanstring_high_low (c d : codepoint) (t : pystr) :
  is_high_surrogate c = true -> is_low_surrogate d = true ->
  scanstring (escape_char c ++ escape_char d ++ t)
  = cons_char (join_surrogates c d) (scanstring t).
Proof.
  intros Hh Hl.
  assert (Hc : 0xd800 <= c <= 0xdfff).
  { unfold is_high_surrogate in Hh. apply andb_true_iff in Hh as [A B].
    apply N.leb_le in A, B. lia. }
  assert (Hd : 0xd800 <= d <= 0xdfff).
  { unfold is_low_surrogate in Hl. apply andb_true_iff in Hl as [A B].
    apply N.leb_le in A, B. lia. }
  rewrite !escape_char_surrogate by assumption. cbn [List.app].
  rewrite scanstring_u by lia.
  unfold hex4 at 1. cbn [List.app].
  rewrite decode_hex4 by lia. now rewrite Hh, Hl.
Qed.

Lemma no_low_escape_quote (rest : pystr) : no_low_escape (34 :: rest) = true.
Proof. destruct rest as [|? [|? [|? [|? [|? ?]]]]]; reflexivity. Qed.

Lemma no_low_escape_char (d : codepoint) (t : pystr) :
  is_low_surrogate d = false -> no_low_escape (escape_char d ++ t) = true.
Proof.
  intros Hl. unfold escape_char.
  repeat match goal with
         | |- context [if ?a =? ?b then _ else _] =>
           destruct (N.eqb_spec a b);
           [destruct t as [|? [|? [|? [|? ?]]]]; reflexivity|]
         end.
  destruct ((32 <=? d) && (d <=? 126)) eqn:Hp.
  - assert (H92 : (d =? 92) = false) by now apply N.eqb_neq.
    destruct t as [|? [|? [|? [|? [|? ?]]]]]; simpl; try reflexivity.
    now rewrite H92.
  - destruct (N.ltb_spec d 65536) as [Hlt|Hge].
    + unfold hex4. simpl. rewrite decode_hex4 by assumption. now rewrite Hl.
    + cbv zeta. remember (d - 65536) as k eqn:Ek.
      assert (B1 : k / 1024 mod 1024 < 1024) by (apply N.mod_lt; discriminate).
      unfold hex4 at 1. cbn [List.app]. unfold no_low_escape.
      change ((92 =? 92) && (117 =? 117)) with true. cbv iota.
      rewrite decode_hex4 by dlia.
      unfold is_low_surrogate.
      destruct (N.leb_spec 56320 (55296 + (k / 1024) mod 1024)); [dlia|reflexivity].
Qed.

(** The decoder reads back what the encoder wrote for a string. *)
Lemma scanstring_encode_aux (n : nat) :
  forall (s rest : pystr), (List.length s <= n)%nat ->
  scanstring (flat_map escape_char s ++ 34 :: rest) = Some (reread s, rest).
Proof.
  induction n as [|n IH]; intros s rest Hn.
  - destruct s; [reflexivity|simpl in Hn; lia].
  - destruct s as [|c r]; [reflexivity|].
    simpl in Hn. cbn [flat_map reread]. rewrite <- app_assoc.
    destruct (is_high_surrogate c) eqn:Hh.
    + destruct r as [|d r'].
      * cbn [flat_map List.app].
        rewrite scanstring_high_alone by (auto using no_low_escape_quote).
        reflexivity.
      * destruct (is_low_surrogate d) eqn:Hl.
        -- cbn [flat_map]. rewrite <- app_assoc.
           rewrite scanstring_high_low by assumption.
           rewrite IH by (simpl in Hn; lia). reflexivity.
        -- rewrite scanstring_high_alone.
           ++ rewrite IH by lia. reflexivity.
           ++ assumption.
           ++ cbn [flat_map]. rewrite <- app_assoc.
              now apply no_low_escape_char.
    + rewrite scanstring_escape_single by assumption.
      rewrite IH by lia. reflexivity.
Qed.

Lemma scanstring_encode (s rest : pystr) :
  scanstring (flat_map escape_char s ++ 34 :: rest) = Some (reread s, rest).
Proof. now apply (scanstring_encode_aux (List.length s)). Qed.

Lemma reread_well_formed (s : pystr) : well_formed s = true -> reread s = s.
Proof.
  induction s as [|c r IH]; [reflexivity|].
  cbn [well_formed reread]. intros H.
  apply andb_true_iff in H as [H H3]. apply andb_true_iff in H as [H1 H2].
  apply N.ltb_lt in H1.
  assert (Hw : wrap c = c).
  { unfold wrap. destruct (N.ltb_spec c 65536); [reflexivity|].
    rewrite N.mod_small by lia. lia. }
  destruct (is_high_surrogate c) eqn:Hh.
  - destruct r as [|d r']; [reflexivity|].
    simpl in H2. destruct (is_low_surrogate d); [discriminate|].
    now rewrite IH.
  - now rewrite Hw, IH.
Qed.

Lemma json_ind' (P : json -> Prop) :
  P JNull -> (forall b, P (JBool b)) -> (forall z, P (JInt z)) ->
  (forall f, P (JFloat f)) -> (forall s, P (JStr s)) ->
  (forall items, Forall P items -> P (JArr items)) ->
  (forall members, Forall (fun kv => P (snd kv)) members -> P (JObj members)) ->
  forall v, P v.
Proof.
  intros Hn Hb Hz Hf Hs Ha Ho.
  fix IH 1. intros [ |b|z|f|s|items|members].
  - exact Hn.
  - apply Hb.
  - apply Hz.
  - apply Hf.
  - apply Hs.
  - apply Ha. induction items as [|x l IHl]; constructor; [apply IH|exact IHl].
  - apply Ho. induction members as [|[k x] l IHl]; constructor;
      [apply IH|exact IHl].
Qed.

(** **** Scalars *)

Lemma int_str_head (z : Z) :
  exists c t, int_str z = c :: t /\ (c = 45 \/ is_digit c = true).
Proof.
  unfold int_str.
  assert (Hd : forall d, d <> Nil ->
             exists c t, digits_of_uint d = c :: t /\ is_digit c = true).
  { intros d Hd. destruct d; try congruence; simpl; eauto. }
  destruct z as [|p|p]; simpl.
  - exists 48, []. auto.
  - destruct (Hd (Pos.to_uint p) (pos_to_uint_nonnil p)) as (c & t & E & D).
    exists c, t. auto.
  - exists 45, (digits_of_uint (Pos.to_uint p)). auto.
Qed.

Lemma delimited_no_digit (rest : pystr) :
  delimited rest = true -> starts_with_digit rest = false.
Proof.
  destruct rest as [|c r]; [reflexivity|]. simpl. unfold is_digit.
  intros H. apply orb_true_iff in H as [H|H]; [apply orb_true_iff in H as [H|H]|];
    apply N.eqb_eq in H; subst; reflexivity.
Qed.

Lemma delimited_match_frac (rest : pystr) :
  delimited rest = true -> match_frac rest = ([], rest).
Proof.
  destruct rest as [|c r]; [reflexivity|]. simpl.
  intros H. apply orb_true_iff in H as [H|H]; [apply orb_true_iff in H as [H|H]|];
    apply N.eqb_eq in H; subst; reflexivity.
Qed.

Lemma delimited_match_exp (rest : pystr) :
  delimited rest = true -> match_exp rest = ([], rest).
Proof.
  destruct rest as [|c r]; [reflexivity|]. simpl.
  intros H. apply orb_true_iff in H as [H|H]; [apply orb_true_iff in H as [H|H]|];
    apply N.eqb_eq in H; subst; reflexivity.
Qed.

Lemma scan_scalar_int (z : Z) (rest : pystr) :
  delimited rest = true ->
  scan_scalar (int_str z ++ rest) = Some (JInt z, rest).
Proof.
  intros Hr. unfold scan_scalar.
  destruct (int_str_head z) as (c & t & E & Hc).
  assert (Hp : forall p, (exists x q, p = x :: q /\ (x =? c) = false) ->
                         strip_prefix p (int_str z ++ rest) = None).
  { intros p (x & q & -> & Hx). rewrite E. simpl. now rewrite Hx. }
  assert (Hne : forall x, x <> 45 -> is_digit x = false -> (x =? c) = false).
  { intros x H1 H2. apply N.eqb_neq. intros ->. destruct Hc; congruence. }
  rewrite (Hp (u "null")) by (do 2 eexists; split; [reflexivity|apply Hne; [discriminate|reflexivity]]).
  rewrite (Hp (u "true")) by (do 2 eexists; split; [reflexivity|apply Hne; [discriminate|reflexivity]]).
  rewrite (Hp (u "false")) by (do 2 eexists; split; [reflexivity|apply Hne; [discriminate|reflexivity]]).
  unfold match_number.
  rewrite match_integer_int_str by now apply delimited_no_digit.
  rewrite delimited_match_frac, delimited_match_exp by assumption.
  simpl. now rewrite int_of_str_int_str.
Qed.

Lemma scan_once_int (z : Z) (fuel : nat) (rest : pystr) :
  delimited rest = true ->
  scan_once (S fuel) (int_str z ++ rest) = Some (JInt z, rest).
Proof.
  intros Hr. rewrite <- (scan_scalar_int z rest Hr).
  destruct (int_str_head z) as (c & t & E & Hc).
  rewrite E. cbn [List.app scan_once].
  assert (H1 : (c =? 34) = false).
  { apply N.eqb_neq. intros ->. destruct Hc; discriminate. }
  assert (H2 : (c =? 123) = false).
  { apply N.eqb_neq. intros ->. destruct Hc; discriminate. }
  assert (H3 : (c =? 91) = false).
  { apply N.eqb_neq. intros ->. destruct Hc; discriminate. }
  now rewrite H1, H2, H3.
Qed.

Lemma float_ok_start (f : pyfloat) : float_ok f -> value_start (floatstr f).
Proof.
  intros H. specialize (H 0%nat [] eq_refl). rewrite List.app_nil_r in H.
  destruct (floatstr f) as [|c t]; [discriminate|].
  exists c, t. split; [reflexivity|].
  split.
  - destruct (is_ws c) eqn:E; [|reflexivity].
    unfold is_ws in E.
    repeat (apply orb_true_iff in E as [E|E]);
      apply N.eqb_eq in E; subst; discriminate.
  - destruct (N.eqb_spec c 93) as [->|]; [discriminate|reflexivity].
Qed.

Lemma dumps_start (v : json) : floats_ok v -> value_start (dumps v).
Proof.
  destruct v as [ |[|]|z|f|s|items|members]; intros Hf;
    try (do 2 eexists; split; [reflexivity|split; reflexivity]).
  - destruct (int_str_head z) as (c & t & E & Hc).
    exists c, t. simpl. split; [assumption|].
    destruct Hc as [->|Hc]; [split; reflexivity|].
    unfold is_digit in Hc. apply andb_true_iff in Hc as [A B].
    apply N.leb_le in A, B.
    split.
    + unfold is_ws.
      repeat match goal with
             | |- context [c =? ?k] => destruct (N.eqb_spec c k); [lia|]
             end. reflexivity.
    + apply N.eqb_neq; lia.
  - apply float_ok_start. now inversion Hf.
Qed.

Lemma skip_ws_start (s t : pystr) : value_start s -> skip_ws (s ++ t) = s ++ t.
Proof. intros (c & r & -> & H & _). simpl. now rewrite H. Qed.

(** **** Containers *)

Lemma join_cons2 (sep p q : pystr) (rest : list pystr) :
  join sep (p :: q :: rest) = p ++ sep ++ join sep (q :: rest).
Proof. reflexivity. Qed.

Lemma array_loop_dumps (scan : pystr -> option (json * pystr)) (items : list json) :
  (forall x r, In x items -> delimited r = true ->
               scan (dumps x ++ r) = Some (reread_value x, r)) ->
  (forall x, In x items -> value_start (dumps x)) ->
  forall (n : nat) (rest : pystr),
    items <> [] -> (List.length items <= n)%nat ->
    array_loop scan n (join (u ", ") (map dumps items) ++ 93 :: rest)
    = Some (map reread_value items, rest).
Proof.
  intros Hscan Hstart.
  induction items as [|x l IH]; intros n rest Hne Hn; [congruence|].
  destruct n as [|n]; [simpl in Hn; lia|].
  destruct l as [|y l'].
  - cbn [map join array_loop].
    rewrite Hscan by (simpl; auto). reflexivity.
  - cbn [map]. rewrite join_cons2, <- !app_assoc.
    cbn [array_loop].
    rewrite Hscan by (simpl; auto).
    change (u ", " ++ ?t) with (44 :: 32 :: t).
    cbn [skip_ws]. change (is_ws 44) with false. cbv iota.
    change (44 =? 93) with false. change (44 =? 44) with true. cbv iota.
    cbn [skip_ws]. change (is_ws 32) with true. cbv iota.
    change (dumps y :: map dumps l') with (map dumps (y :: l')).
    assert (Hj : exists t, join (u ", ") (map dumps (y :: l')) = dumps y ++ t).
    { destruct l'; cbn [map join]; [exists []; now rewrite List.app_nil_r|eauto]. }
    destruct Hj as (t & Hj).
    assert (Hs : skip_ws (join (u ", ") (map dumps (y :: l')) ++ 93 :: rest)
                 = join (u ", ") (map dumps (y :: l')) ++ 93 :: rest).
    { rewrite Hj, <- app_assoc. apply skip_ws_start. apply Hstart. simpl; auto. }
    rewrite Hs.
    rewrite IH.
    + reflexivity.
    + intros; apply Hscan; simpl in *; tauto.
    + intros; apply Hstart; simpl in *; tauto.
    + discriminate.
    + simpl in *; lia.
Qed.

Lemma JSONArray_dumps (scan : pystr -> option (json * pystr)) (items : list json) :
  (forall x r, In x items -> delimited r = true ->
               scan (dumps x ++ r) = Some (reread_value x, r)) ->
  (forall x, In x items -> value_start (dumps x)) ->
  forall (n : nat) (rest : pystr),
    (List.length items <= n)%nat ->
    JSONArray scan n (join (u ", ") (map dumps items) ++ 93 :: rest)
    = Some (map reread_value items, rest).
Proof.
  intros Hscan Hstart n rest Hn. unfold JSONArray.
  destruct items as [|x l]; [reflexivity|].
  assert (Hj : exists t, join (u ", ") (map dumps (x :: l)) = dumps x ++ t).
  { destruct l; cbn [map join]; [exists []; now rewrite List.app_nil_r|eauto]. }
  destruct Hj as (t & Hj).
  destruct (Hstart x (or_introl eq_refl)) as (c & r & E & Hw & H93).
  pose proof (array_loop_dumps scan (x :: l) Hscan Hstart n rest
                ltac:(discriminate) Hn) as HL.
  rewrite Hj, <- app_assoc, E in *. cbn [List.app skip_ws] in *.
  rewrite Hw, H93. exact HL.
Qed.

(** The text of the members after the opening quote of the first key. *)
Lemma members_text (kv : pystr * json) (l : list (pystr * json)) :
  join (u ", ") (map encode_member (kv :: l))
  = 34 :: flat_map escape_char (fst kv) ++ 34 :: 58 :: 32 :: dumps (snd kv)
       ++ match l with
          | [] => []
          | _ :: _ => 44 :: 32 :: join (u ", ") (map encode_member l)
          end.
Proof.
  destruct l as [|kv' l]; cbn [map join]; unfold encode_member at 1,
    encode_basestring_ascii; cbn [List.app]; rewrite <- !app_assoc;
    cbn [List.app]; [now rewrite List.app_nil_r|reflexivity].
Qed.

Lemma object_loop_dumps (scan : pystr -> option (json * pystr))
    (members : list (pystr * json)) :
  (forall kv r, In kv members -> delimited r = true ->
                scan (dumps (snd kv) ++ r) = Some (reread_value (snd kv), r)) ->
  (forall kv, In kv members -> value_start (dumps (snd kv))) ->
  forall (n : nat) (rest : pystr) (t : pystr),
    (List.length members <= n)%nat ->
    join (u ", ") (map encode_member members) = 34 :: t ->
    object_loop scan n (t ++ 125 :: rest)
    = Some (map reread_member members, rest).
Proof.
  intros Hscan Hstart.
  induction members as [|kv l IH]; intros n rest t Hn Ht; [discriminate|].
  destruct n as [|n]; [simpl in Hn; lia|].
  rewrite members_text in Ht. injection Ht as <-.
  rewrite <- !app_assoc. cbn [List.app object_loop].
  rewrite scanstring_encode.
  cbn [skip_ws]. change (is_ws 58) with false. cbv iota.
  change (58 =? 58) with true. cbv iota.
  cbn [skip_ws]. change (is_ws 32) with true. cbv iota.
  rewrite <- !app_assoc.
  rewrite skip_ws_start by (apply Hstart; simpl; auto).
  destruct l as [|kv' l'].
  - cbn [List.app]. rewrite Hscan by (simpl; auto). reflexivity.
  - cbn [List.app]. rewrite Hscan by (simpl; auto).
    cbn [skip_ws]. change (is_ws 44) with false. cbv iota.
    change (44 =? 125) with false. change (44 =? 44) with true. cbv iota.
    cbn [skip_ws]. change (is_ws 32) with true. cbv iota.
    pose proof (members_text kv' l') as E.
    rewrite E. cbn [List.app skip_ws].
    change (is_ws 34) with false. cbv iota.
    change (34 =? 34) with true. cbv iota.
    assert (Hscan' : forall kv0 r, In kv0 (kv' :: l') -> delimited r = true ->
              scan (dumps (snd kv0) ++ r) = Some (reread_value (snd kv0), r))
      by (intros; apply Hscan; simpl in *; tauto).
    assert (Hstart' : forall kv0, In kv0 (kv' :: l') -> value_start (dumps (snd kv0)))
      by (intros; apply Hstart; simpl in *; tauto).
    rewrite (IH Hscan' Hstart' n rest _ ltac:(simpl in *; lia) E).
    reflexivity.
Qed.

Lemma JSONObject_dumps (scan : pystr -> option (json * pystr))
    (members : list (pystr * json)) :
  (forall kv r, In kv members -> delimited r = true ->
                scan (dumps (snd kv) ++ r) = Some (reread_value (snd kv), r)) ->
  (forall kv, In kv members -> value_start (dumps (snd kv))) ->
  forall (n : nat) (rest : pystr),
    (List.length members <= n)%nat ->
    JSONObject scan n (join (u ", ") (map encode_member members) ++ 125 :: rest)
    = Some (dict_of_pairs (map reread_member members), rest).
Proof.
  intros Hscan Hstart n rest Hn. unfold JSONObject.
  destruct members as [|kv l]; [reflexivity|].
  pose proof (members_text kv l) as E.
  pose proof (object_loop_dumps scan (kv :: l) Hscan Hstart n rest _ Hn E) as HL.
  rewrite E. cbn [List.app skip_ws].
  change (is_ws 34) with false. cbv iota.
  change (34 =? 125) with false. change (34 =? 34) with true. cbv iota.
  now rewrite HL.
Qed.

(** **** The weight of a value *)

Lemma weight_pos (v : json) : (1 <= weight v)%nat.
Proof. destruct v; simpl; lia. Qed.

Lemma weight_in {A} (f : A -> nat) (x : A) (l : list A) :
  In x l -> (f x <= list_sum (map f l))%nat.
Proof.
  induction l as [|y l IH]; [contradiction|].
  intros [->|H]; simpl; [lia|]. specialize (IH H). lia.
Qed.

Lemma weight_length {A} (f : A -> nat) (l : list A) :
  (forall x, In x l -> (1 <= f x)%nat) ->
  (List.length l <= list_sum (map f l))%nat.
Proof.
  induction l as [|y l IH]; intros H; simpl; [lia|].
  pose proof (H y (or_introl eq_refl)).
  assert (List.length l <= list_sum (map f l))%nat by (apply IH; intros; apply H; simpl; auto).
  lia.
Qed.

Lemma floats_ok_item (x : json) (items : list json) :
  floats_ok (JArr items) -> In x items -> floats_ok x.
Proof.
  unfold floats_ok. cbn [floats_of]. rewrite !Forall_forall.
  intros H Hin f Hf. apply H. apply in_flat_map. eauto.
Qed.

Lemma floats_ok_member (kv : pystr * json) (members : list (pystr * json)) :
  floats_ok (JObj members) -> In kv members -> floats_ok (snd kv).
Proof.
  unfold floats_ok. cbn [floats_of]. rewrite !Forall_forall.
  intros H Hin f Hf. apply H. apply in_flat_map. eauto.
Qed.

(** **** The decoder reads back what the encoder wrote *)

Lemma scan_once_dumps (v : json) :
  floats_ok v ->
  forall (fuel : nat) (rest : pystr),
    (weight v <= fuel)%nat -> delimited rest = true ->
    scan_once fuel (dumps v ++ rest) = Some (reread_value v, rest).
Proof.
  induction v as [ |b|z|f|s|items IH|members IH] using json_ind';
    intros Hf fuel rest Hw Hr;
    (destruct fuel as [|fuel]; [pose proof (weight_pos JNull); simpl in Hw; lia|]).
  - reflexivity.
  - destruct b; reflexivity.
  - now apply scan_once_int.
  - inversion Hf; subst. now apply H1.
  - cbn [dumps reread_value]. unfold encode_basestring_ascii.
    cbn [List.app]. rewrite <- ?app_assoc. cbn [List.app scan_once].
    change (34 =? 34) with true. cbv iota.
    now rewrite scanstring_encode.
  - cbn [dumps reread_value weight] in *.
    cbn [List.app]. rewrite <- ?app_assoc. cbn [List.app scan_once].
    change (91 =? 34) with false. change (91 =? 123) with false.
    change (91 =? 91) with true. cbv iota.
    rewrite JSONArray_dumps; [reflexivity| | |].
    + intros x r Hin Hd. rewrite Forall_forall in IH.
      apply IH; auto.
      * eapply floats_ok_item; eauto.
      * pose proof (weight_in weight x items Hin). lia.
    + intros x Hin. apply dumps_start. eapply floats_ok_item; eauto.
    + pose proof (weight_length weight items (fun x _ => weight_pos x)). lia.
  - cbn [dumps reread_value weight] in *.
    cbn [List.app]. rewrite <- ?app_assoc. cbn [List.app scan_once].
    change (123 =? 34) with false. change (123 =? 123) with true. cbv iota.
    change (map (fun kv => encode_basestring_ascii (fst kv) ++ u ": "
                             ++ dumps (snd kv)) members)
      with (map encode_member members).
    rewrite JSONObject_dumps; [reflexivity| | |].
    + intros kv r Hin Hd. rewrite Forall_forall in IH.
      apply IH; auto.
      * eapply floats_ok_member; eauto.
      * pose proof (weight_in (fun kv => weight (snd kv)) kv members Hin).
        simpl in *. lia.
    + intros kv Hin. apply dumps_start. eapply floats_ok_member; eauto.
    + pose proof (weight_length (fun kv => weight (snd kv)) members
                    (fun x _ => weight_pos (snd x))). lia.
Qed.

Lemma join_length {A} (f : A -> nat) (g : A -> pystr) (sep : pystr) (l : list A) :
  (forall x, In x l -> (f x <= List.length (g x))%nat) ->
  (list_sum (map f l) <= List.length (join sep (map g l)))%nat.
Proof.
  induction l as [|x l IH]; intros H; [simpl; lia|].
  assert (list_sum (map f l) <= List.length (join sep (map g l)))%nat
    by (apply IH; intros; apply H; simpl; auto).
  pose proof (H x (or_introl eq_refl)).
  destruct l as [|y l']; [simpl in *; lia|].
  cbn [map] in *. rewrite join_cons2, !length_app.
  change (list_sum (f x :: ?t)) with (f x + list_sum t)%nat. lia.
Qed.

Lemma dumps_length (v : json) :
  floats_ok v -> (weight v <= List.length (dumps v))%nat.
Proof.
  induction v as [ |b|z|f|s|items IH|members IH] using json_ind'; intros Hf.
  - simpl; lia.
  - destruct b; simpl; lia.
  - destruct (int_str_head z) as (c & t & E & _). simpl. rewrite E. simpl; lia.
  - destruct (dumps_start (JFloat f) Hf) as (c & t & E & _).
    rewrite E. simpl; lia.
  - simpl; lia.
  - cbn [dumps weight]. cbn [List.length]. rewrite length_app.
    rewrite Forall_forall in IH.
    pose proof (join_length weight dumps (u ", ") items
                  (fun x Hin => IH x Hin (floats_ok_item x items Hf Hin))).
    lia.
  - cbn [dumps weight]. cbn [List.length]. rewrite length_app.
    rewrite Forall_forall in IH.
    pose proof (join_length (fun kv => weight (snd kv)) encode_member (u ", ")
                  members) as HJ.
    unfold encode_member in HJ at 2.
    assert (forall kv, In kv members ->
              (weight (snd kv)
               <= List.length (encode_basestring_ascii (fst kv) ++ u ": "
                                 ++ dumps (snd kv)))%nat).
    { intros kv Hin. rewrite !length_app.
      pose proof (IH kv Hin (floats_ok_member kv members Hf Hin)) as Hk.
      cbv beta in Hk. change (List.length (u ": ")) with 2%nat.
      unfold codepoint in *. lia. }
    specialize (HJ H). unfold encode_member in HJ.
    unfold pystr, codepoint in *. lia.
Qed.

(** [json.loads(json.dumps(v))] succeeds and is [reread_value v]. *)
Lemma loads_dumps (v : json) :
  floats_ok v -> loads (dumps v) = Some (reread_value v).
Proof.
  intros Hf. unfold loads.
  pose proof (skip_ws_start (dumps v) [] (dumps_start v Hf)) as Hs.
  rewrite List.app_nil_r in Hs. rewrite Hs.
  pose proof (scan_once_dumps v Hf (S (List.length (dumps v))) []) as H.
  rewrite List.app_nil_r in H. rewrite H; [reflexivity| |reflexivity].
  pose proof (dumps_length v Hf). lia.
Qed.

(** **** Values read back unchanged *)

Lemma dict_lookup_set_other (d : dict) (k k' : pystr) (v : json) :
  k <> k' -> dict_lookup (dict_set d k v) k' = dict_lookup d k'.
Proof.
  intros Hne. induction d as [|[k0 v0] d IH]; simpl.
  - apply str_eqb_neq in Hne. now rewrite Hne.
  - destruct (str_eqb k0 k) eqn:E; simpl.
    + apply str_eqb_eq in E; subst.
      apply str_eqb_neq in Hne. now rewrite Hne.
    + destruct (str_eqb k0 k'); [reflexivity|exact IH].
Qed.

Lemma dict_set_fresh (d : dict) (k : pystr) (v : json) :
  dict_lookup d k = None -> dict_set d k v = d ++ [(k, v)].
Proof.
  induction d as [|[k0 v0] d IH]; simpl; [reflexivity|].
  destruct (str_eqb k0 k); [discriminate|].
  intros H. now rewrite IH.
Qed.

Lemma dict_lookup_app (d1 d2 : dict) (k : pystr) :
  dict_lookup (d1 ++ d2) k
  = match dict_lookup d1 k with
    | Some v => Some v
    | None => dict_lookup d2 k
    end.
Proof.
  induction d1 as [|[k0 v0] d1 IH]; simpl; [reflexivity|].
  destruct (str_eqb k0 k); [reflexivity|exact IH].
Qed.

Lemma dict_of_pairs_distinct_aux (d acc : dict) :
  distinct_keys d = true ->
  (forall k v, In (k, v) d -> dict_lookup acc k = None) ->
  fold_left (fun a kv => dict_set a (fst kv) (snd kv)) d acc = acc ++ d.
Proof.
  revert acc. induction d as [|[k v] d IH]; intros acc Hd Hacc.
  - simpl. now rewrite List.app_nil_r.
  - cbn [fold_left fst snd]. simpl in Hd.
    destruct (dict_lookup d k) eqn:Ek; [discriminate|].
    rewrite dict_set_fresh by (apply (Hacc k v); simpl; auto).
    rewrite IH.
    + now rewrite <- app_assoc.
    + assumption.
    + intros k' v' Hin. rewrite dict_lookup_app.
      rewrite (Hacc k' v') by (simpl; auto). simpl.
      destruct (str_eqb k k') eqn:E; [|reflexivity].
      apply str_eqb_eq in E; subst.
      clear - Ek Hin. induction d as [|[k0 v0] d IH]; [contradiction|].
      simpl in Ek. destruct (str_eqb k0 k') eqn:E0; [discriminate|].
      destruct Hin as [H|H].
      * inversion H; subst. now rewrite str_eqb_refl in E0.
      * auto.
Qed.

Lemma dict_of_pairs_distinct (d : dict) :
  distinct_keys d = true -> dict_of_pairs d = d.
Proof.
  intros H. unfold dict_of_pairs.
  now rewrite dict_of_pairs_distinct_aux.
Qed.

Lemma reread_canonical (v : json) : canonical v = true -> reread_value v = v.
Proof.
  induction v as [ |b|z|f|s|items IH|members IH] using json_ind';
    cbn [canonical reread_value]; intros H; try reflexivity.
  - now rewrite reread_well_formed.
  - f_equal. rewrite forallb_forall in H. rewrite Forall_forall in IH.
    rewrite <- (map_id items) at 2. apply map_ext_in. auto.
  - apply andb_true_iff in H as [H1 H2].
    rewrite forallb_forall in H1. rewrite Forall_forall in IH.
    f_equal.
    replace (map (fun kv => (reread (fst kv), reread_value (snd kv))) members)
      with members.
    + now apply dict_of_pairs_distinct.
    + rewrite <- (map_id members) at 1. apply map_ext_in.
      intros [k x] Hin. specialize (H1 _ Hin). simpl in *.
      apply andb_true_iff in H1 as [A B].
      rewrite reread_well_formed by assumption.
      pose proof (IH _ Hin B) as Hx. simpl in Hx. now rewrite Hx.
Qed.

(** The round trip through [json.dumps] and [json.loads]. *)
Lemma loads_dumps_canonical (v : json) :
  floats_ok v -> canonical v = true -> loads (dumps v) = Some v.
Proof.
  intros Hf Hc. rewrite loads_dumps by assumption.
  now rewrite reread_canonical.
Qed.

(** ** Facts about the effects *)

Section Preserved.
Variable w : World.
Variable R : State -> State -> Prop.
Hypothesis R_refl : forall st, R st st.
Hypothesis R_trans : forall a b c, R a b -> R b c -> R a c.
Hypothesis R_logged : forall st e, llm_event e = false -> R st (logged st e).

Lemma preserves_ret {A} (a : A) : preserves R (ret a).
Proof. intros st. apply R_refl. Qed.

Lemma preserves_raise {A} (e : exn) : preserves R (@raise A e).
Proof. intros st. apply R_refl. Qed.

Lemma preserves_bind {A B} (c : M A) (k : A -> M B) :
  preserves R c -> (forall a, preserves R (k a)) -> preserves R (bind c k).
Proof.
  intros Hc Hk st. unfold bind.
  specialize (Hc st). destruct (c st) as [[a|e] st1]; simpl in *.
  - eapply R_trans; [exact Hc|apply Hk].
  - exact Hc.
Qed.

Lemma preserves_http_get (url : pystr) : preserves R (http_get w url).
Proof.
  intros st. unfold http_get.
  destruct (requests_get w (trace st) url); simpl; now apply R_logged.
Qed.

Lemma preserves_show (k : notice) (t : pystr) : preserves R (show k t).
Proof. intros st. now apply R_logged. Qed.

Lemma preserves_subscript (item : json) (key : pystr) :
  preserves R (subscript item key).
Proof.
  unfold subscript. destruct item; try apply preserves_raise.
  destruct (dict_lookup members key);
    [apply preserves_ret|apply preserves_raise].
Qed.

Lemma preserves_format_item (item : json) : preserves R (format_item item).
Proof.
  unfold format_item.
  repeat (apply preserves_bind; [apply preserves_subscript|intros ?]).
  apply preserves_ret.
Qed.

Lemma preserves_for_each (items : list json) (results : list pystr) :
  preserves R (for_each items results).
Proof.
  revert results. induction items as [|x l IH]; intros results; simpl.
  - apply preserves_ret.
  - apply preserves_bind; [apply preserves_format_item|intros ?; apply IH].
Qed.

Lemma preserves_get_weather (city : json) : preserves R (get_weather w city).
Proof.
  unfold get_weather. apply preserves_bind; [apply preserves_http_get|].
  intros r. destruct (status_code r =? 200)%Z; apply preserves_ret.
Qed.

Lemma preserves_google_search (query : json) :
  preserves R (google_search w query).
Proof.
  unfold google_search. apply preserves_bind; [apply preserves_http_get|].
  intros r. destruct (status_code r =? 200)%Z; [|apply preserves_ret].
  apply preserves_bind.
  { unfold response_json. destruct (loads (text r));
      [apply preserves_ret|apply preserves_raise]. }
  intros data. apply preserves_bind.
  { unfold get_items. destruct data; try apply preserves_raise.
    destruct (dict_lookup members (u "items")); apply preserves_ret. }
  intros items. apply preserves_bind.
  { unfold slice3. destruct items;
      try apply preserves_raise; apply preserves_ret. }
  intros first3. apply preserves_bind; [apply preserves_for_each|].
  intros results. apply preserves_ret.
Qed.

(** The registered tools are the two tool functions. *)
Lemma registry_find_tools (name : pystr) (tool : Tool) :
  registry_find (available_tools w) name = Some tool ->
  fn tool = get_weather w \/ fn tool = google_search w.
Proof.
  unfold available_tools. cbn [registry_find].
  destruct (str_eqb (u "get_weather") name); [intros [= <-]; auto|].
  destruct (str_eqb (u "google_search") name); [intros [= <-]; auto|].
  discriminate.
Qed.

Lemma preserves_tool (name : pystr) (tool : Tool) (tool_input : json) :
  registry_find (available_tools w) name = Some tool ->
  preserves R (fn tool tool_input).
Proof.
  intros H. destruct (registry_find_tools name tool H) as [-> | ->].
  - apply preserves_get_weather.
  - apply preserves_google_search.
Qed.

Lemma find_tool_some (tool_name : json) (st st' : State) (tool : Tool) :
  find_tool w tool_name st = (Ok (Some tool), st') ->
  st' = st /\ exists name, tool_name = JStr name
               /\ registry_find (available_tools w) name = Some tool.
Proof.
  unfold find_tool, ret, raise. destruct tool_name; try discriminate.
  intros [= E <-]. eauto.
Qed.

Lemma find_tool_state (tool_name : json) (st : State) :
  snd (find_tool w tool_name st) = st.
Proof. unfold find_tool, ret, raise. now destruct tool_name. Qed.

Lemma preserves_py_get (parsed : json) (key : pystr) :
  preserves R (py_get parsed key).
Proof.
  unfold py_get. destruct parsed;
    first [apply preserves_raise|apply preserves_ret].
Qed.

(** What the loop does with a parsed reply preserves every relation
    that holds when an event is logged and when an observe Step is
    appended. *)
Lemma preserves_dispatch (parsed : json) :
  (forall st out, R st (appended st assistant (dumps (observe_step out)))) ->
  preserves R (dispatch w parsed).
Proof.
  intros R_observe. unfold dispatch.
  apply preserves_bind; [apply preserves_py_get|intros step].
  destruct (is_str step (u "plan")).
  { apply preserves_bind; [apply preserves_subscript|intros c].
    apply preserves_bind; [apply preserves_show|intros _]. apply preserves_ret. }
  destruct (is_str step (u "action")).
  { apply preserves_bind; [apply preserves_py_get|intros tool_name].
    apply preserves_bind; [apply preserves_py_get|intros tool_input].
    intros st. unfold bind.
    pose proof (find_tool_state tool_name st) as Hs.
    destruct (find_tool w tool_name st) as [[[tool|]|e] st1] eqn:E;
      simpl in *; subst st1; try apply R_refl.
    destruct (find_tool_some tool_name st st tool E) as (_ & name & _ & Hreg).
    pose proof (preserves_tool name tool tool_input Hreg st) as Ht.
    destruct (fn tool tool_input st) as [[out|e] st2]; simpl in *.
    - eapply R_trans; [exact Ht|].
      eapply R_trans; [apply R_observe|now apply R_logged].
    - exact Ht. }
  destruct (is_str step (u "output")).
  { apply preserves_bind; [apply preserves_subscript|intros c].
    apply preserves_bind; [apply preserves_show|intros _]. apply preserves_ret. }
  apply preserves_bind; [apply preserves_show|intros _]. apply preserves_ret.
Qed.

(** One round and a whole run preserve every such relation that also
    holds when the round logs its LLM call and when an assistant
    message is appended. *)
Lemma preserves_handle_reply (reply : pystr) :
  (forall st c, R st (appended st assistant c)) ->
  preserves R (handle_reply w reply).
Proof.
  intros R_app. unfold handle_reply. destruct (loads reply) as [parsed|].
  - apply preserves_bind; [intros st; apply R_app|intros _].
    apply preserves_dispatch. intros st0 out. apply R_app.
  - apply preserves_bind; [apply preserves_show|intros _].
    apply preserves_bind; [intros st; apply R_app|intros _].
    apply preserves_ret.
Qed.

Lemma preserves_loop_body :
  (forall st, R st (logged st (LLMCall (messages st)))) ->
  (forall st c, R st (appended st assistant c)) ->
  preserves R (loop_body w).
Proof.
  intros R_call R_app st. unfold loop_body, call_llm. unfold bind at 1.
  destruct (chat_completions_create w (trace st) (messages st)) as [reply| |];
    cbv zeta iota beta; cbn [snd]; try apply R_call.
  eapply R_trans; [apply R_call|].
  apply (preserves_handle_reply reply R_app).
Qed.

Lemma preserves_while_true (body : M control) :
  preserves R body ->
  forall fuel st, R st (snd (while_true fuel body st)).
Proof.
  intros Hb fuel. induction fuel as [|n IH]; intros st; cbn [while_true].
  - apply R_refl.
  - specialize (Hb st).
    destruct (body st) as [[[|]|e] st1]; cbn [snd] in *; try exact Hb.
    eapply R_trans; [exact Hb|apply IH].
Qed.

End Preserved.

Lemma extends_refl (st : State) : extends st st.
Proof. exists []. now rewrite List.app_nil_r. Qed.

Lemma extends_trans (a b c : State) : extends a b -> extends b c -> extends a c.
Proof.
  intros [t1 H1] [t2 H2]. exists (t1 ++ t2). now rewrite H2, H1, <- app_assoc.
Qed.

Lemma extends_logged (st : State) (e : event) : extends st (logged st e).
Proof. now exists [e]. Qed.

Lemma extends_appended (st : State) (r : Role) (c : pystr) :
  extends st (appended st r c).
Proof. exists []. simpl. now rewrite List.app_nil_r. Qed.

Lemma same_messages_refl (st : State) : same_messages st st.
Proof. reflexivity. Qed.

Lemma same_messages_trans (a b c : State) :
  same_messages a b -> same_messages b c -> same_messages a c.
Proof. unfold same_messages. congruence. Qed.

Lemma same_messages_logged (st : State) (e : event) :
  llm_event e = false -> same_messages st (logged st e).
Proof. reflexivity. Qed.

Lemma extends_logged_other (st : State) (e : event) :
  llm_event e = false -> extends st (logged st e).
Proof. intros _. apply extends_logged. Qed.

(** A tool function leaves the conversation alone. *)
Lemma tool_same_messages (w : World) (name : pystr) (tool : Tool)
    (tool_input : json) (st : State) :
  registry_find (available_tools w) name = Some tool ->
  messages (snd (fn tool tool_input st)) = messages st.
Proof.
  intros H.
  apply (preserves_tool w same_messages same_messages_refl same_messages_trans
           same_messages_logged name tool tool_input H st).
Qed.

Lemma ext_ret {A} (a : A) : preserves extends (ret a).
Proof. apply preserves_ret, extends_refl. Qed.

Lemma ext_raise {A} (e : exn) : preserves extends (@raise A e).
Proof. apply preserves_raise, extends_refl. Qed.

Lemma ext_bind {A B} (c : M A) (k : A -> M B) :
  preserves extends c -> (forall a, preserves extends (k a)) ->
  preserves extends (bind c k).
Proof. apply preserves_bind, extends_trans. Qed.

Lemma ext_show (k : notice) (t : pystr) : preserves extends (show k t).
Proof. apply preserves_show, extends_logged_other. Qed.

Lemma ext_subscript (item : json) (key : pystr) :
  preserves extends (subscript item key).
Proof. apply preserves_subscript, extends_refl. Qed.

Lemma ext_append_message (r : Role) (c : pystr) :
  preserves extends (append_message r c).
Proof. intros st. apply extends_appended. Qed.

(** Whatever the reply, handling it only adds to the trace. *)
Lemma handle_reply_extends (w : World) (reply : pystr) :
  preserves extends (handle_reply w reply).
Proof.
  unfold handle_reply.
  destruct (loads reply) as [parsed|].
  - apply ext_bind; [apply ext_append_message|intros _].
    apply preserves_dispatch.
    + apply extends_refl.
    + apply extends_trans.
    + apply extends_logged_other.
    + intros st out. apply extends_appended.
  - apply ext_bind; [apply ext_show|intros _].
    apply ext_bind; [apply ext_append_message|intros _]. apply ext_ret.
Qed.

(** Every round starts with an LLM call on the whole conversation. *)
Lemma loop_body_calls_llm (w : World) (st : State) :
  exists tl, trace (snd (loop_body w st))
             = trace st ++ LLMCall (messages st) :: tl.
Proof.
  unfold loop_body, bind, call_llm.
  destruct (chat_completions_create w (trace st) (messages st)) as [reply| |].
  - destruct (handle_reply_extends w reply (logged st (LLMCall (messages st))))
      as [tl H].
    exists tl. destruct (handle_reply w reply _) as [[c|e] st']; simpl in *;
      rewrite H; now rewrite <- app_assoc.
  - exists []. reflexivity.
  - exists []. reflexivity.
Qed.

Lemma while_true_extends (w : World) (fuel : nat) (st : State) :
  extends st (snd (while_true fuel (loop_body w) st)).
Proof.
  revert st. induction fuel as [|n IH]; intros st; simpl.
  - apply extends_refl.
  - destruct (loop_body_calls_llm w st) as [tl H].
    assert (Hb : extends st (snd (loop_body w st))) by (eexists; exact H).
    destruct (loop_body w st) as [[[|]|e] st1]; simpl in *; try exact Hb.
    eapply extends_trans; [exact Hb|apply IH].
Qed.

(** When a round ends with [continue], the run goes on from the state
    it reached, and what the run does next is an LLM call on the
    conversation of that state. *)
Lemma continue_then_llm (w : World) (st st1 : State) :
  loop_body w st = (Ok Continue, st1) ->
  forall fuel,
    process_chat w (S fuel) st = process_chat w fuel st1
    /\ exists tl, trace (snd (process_chat w (S (S fuel)) st))
                  = trace st1 ++ LLMCall (messages st1) :: tl.
Proof.
  intros H fuel. unfold process_chat. split.
  - simpl. now rewrite H.
  - cbn [while_true]. rewrite H.
    destruct (loop_body_calls_llm w st1) as [tl Hl].
    destruct (loop_body w st1) as [[[|]|e] st2] eqn:E; simpl in *;
      try (exists tl; exact Hl).
    destruct (while_true_extends w fuel st2) as [tl2 H2].
    exists (tl ++ tl2). rewrite H2, Hl, <- app_assoc. reflexivity.
Qed.

(** ** The dialogue loop *)

(** Unfolding one round on a reply that parses. *)
Lemma loop_body_parsed (w : World) (st : State) (reply : pystr) (parsed : json) :
  chat_completions_create w (trace st) (messages st) = Reply reply ->
  loads reply = Some parsed ->
  loop_body w st = dispatch w parsed (after_reply st parsed).
Proof.
  intros Hllm Hloads.
  unfold loop_body, call_llm. unfold bind at 1. rewrite Hllm. cbv zeta iota beta.
  unfold handle_reply. rewrite Hloads.
  unfold bind at 1. reflexivity.
Qed.

(** C1: a reply that parses to an action Step naming a registered tool
    makes the loop call that tool's function on the Step's input; when
    the tool returns [R], the loop appends the serialization of the
    observe Step holding [R] as one further assistant message, shows the
    observation, and goes on with another LLM call on the extended
    conversation. *)
Theorem action_invokes_registered_tool
    (w : World) (st : State) (reply : pystr) (d : dict) (F : pystr)
    (arg : json) (tool : Tool) (R : pystr) (st2 : State) :
  chat_completions_create w (trace st) (messages st) = Reply reply ->
  loads reply = Some (JObj d) ->
  dict_get d (u "step") = JStr (u "action") ->
  dict_get d (u "function") = JStr F ->
  dict_get d (u "input") = arg ->
  registry_find (available_tools w) F = Some tool ->
  fn tool arg (after_reply st (JObj d)) = (Ok R, st2) ->
  loop_body w st = (Ok Continue, after_observe st2 R)
  /\ messages (after_observe st2 R)
     = messages st
       ++ [ {| role := assistant; content := dumps (JObj d) |};
            {| role := assistant;
               content := dumps (JObj [(u "step", JStr (u "observe"));
                                       (u "content", JStr R)]) |} ]
  /\ forall fuel,
       process_chat w (S fuel) st = process_chat w fuel (after_observe st2 R)
       /\ exists tl,
            trace (snd (process_chat w (S (S fuel)) st))
            = trace (after_observe st2 R)
              ++ LLMCall (messages (after_observe st2 R)) :: tl.
Proof.
  intros Hllm Hloads Hstep Hfun Hin Hreg Hrun.
  assert (Hbody : loop_body w st = (Ok Continue, after_observe st2 R)).
  { rewrite (loop_body_parsed w st reply (JObj d) Hllm Hloads).
    unfold dispatch, py_get. unfold bind at 1. unfold ret at 1. rewrite Hstep.
    change (is_str (JStr (u "action")) (u "plan")) with false.
    change (is_str (JStr (u "action")) (u "action")) with true. cbv iota.
    unfold bind at 1. unfold ret at 1. rewrite Hfun.
    unfold bind at 1. unfold ret at 1. rewrite Hin.
    unfold bind at 1. unfold find_tool, ret at 1. rewrite Hreg.
    unfold bind at 1. rewrite Hrun. reflexivity. }
  split; [exact Hbody|]. split.
  - pose proof (tool_same_messages w F tool arg (after_reply st (JObj d)) Hreg) as Hm.
    rewrite Hrun in Hm. simpl in Hm. unfold after_observe. simpl.
    rewrite Hm. rewrite <- app_assoc. reflexivity.
  - apply continue_then_llm. exact Hbody.
Qed.
(** C4: a reply that parses to an action Step whose function is not a
    key of the registry makes the loop call no tool and append no
    observe message; the round ends without terminating the loop, and
    the next thing the loop does is an LLM call on the conversation
    extended by the action message only. *)
Theorem action_unknown_tool_continues
    (w : World) (st : State) (reply : pystr) (d : dict) (F : json) :
  chat_completions_create w (trace st) (messages st) = Reply reply ->
  loads reply = Some (JObj d) ->
  dict_get d (u "step") = JStr (u "action") ->
  dict_get d (u "function") = F ->
  hashable F = true ->
  (forall name, F = JStr name -> registry_find (available_tools w) name = None) ->
  loop_body w st = (Ok Continue, after_reply st (JObj d))
  /\ messages (after_reply st (JObj d))
     = messages st ++ [ {| role := assistant; content := dumps (JObj d) |} ]
  /\ trace (after_reply st (JObj d)) = trace st ++ [LLMCall (messages st)]
  /\ forall fuel,
       process_chat w (S fuel) st = process_chat w fuel (after_reply st (JObj d))
       /\ exists tl,
            trace (snd (process_chat w (S (S fuel)) st))
            = trace (after_reply st (JObj d))
              ++ LLMCall (messages (after_reply st (JObj d))) :: tl.
Proof.
  intros Hllm Hloads Hstep Hfun Hhash Hreg.
  assert (Hbody : loop_body w st = (Ok Continue, after_reply st (JObj d))).
  { rewrite (loop_body_parsed w st reply (JObj d) Hllm Hloads).
    unfold dispatch, py_get. unfold bind at 1. unfold ret at 1. rewrite Hstep.
    change (is_str (JStr (u "action")) (u "plan")) with false.
    change (is_str (JStr (u "action")) (u "action")) with true. cbv iota.
    unfold bind at 1. unfold ret at 1. rewrite Hfun.
    unfold bind at 1. unfold ret at 1.
    unfold bind at 1. unfold find_tool.
    destruct F as [ |b|z|f|name|items|members]; try discriminate Hhash;
      try reflexivity.
    unfold ret at 1. now rewrite (Hreg name eq_refl). }
  split; [exact Hbody|]. split; [reflexivity|]. split; [reflexivity|].
  apply continue_then_llm. exact Hbody.
Qed.

(** C8: a reply that parses to an output Step with content [C] ends the
    loop: the final answer shown is the fixed frame around [C] itself,
    and no further LLM call is made. *)
Theorem output_terminates
    (w : World) (st : State) (reply : pystr) (d : dict) (C : pystr) :
  chat_completions_create w (trace st) (messages st) = Reply reply ->
  loads reply = Some (JObj d) ->
  dict_get d (u "step") = JStr (u "output") ->
  dict_lookup d (u "content") = Some (JStr C) ->
  let st' := logged (after_reply st (JObj d))
                    (Show st_markdown (final_answer C)) in
  loop_body w st = (Ok Break, st')
  /\ (forall fuel, process_chat w (S fuel) st = (Finished (Ok tt), st'))
  /\ trace st' = trace st ++ [LLMCall (messages st);
                              Show st_markdown (final_answer C)]
  /\ exists before after, forall c, final_answer c = before ++ c ++ after.
Proof.
  intros Hllm Hloads Hstep Hc st'.
  assert (Hbody : loop_body w st = (Ok Break, st')).
  { rewrite (loop_body_parsed w st reply (JObj d) Hllm Hloads).
    unfold dispatch, py_get. unfold bind at 1. unfold ret at 1. rewrite Hstep.
    change (is_str (JStr (u "output")) (u "plan")) with false.
    change (is_str (JStr (u "output")) (u "action")) with false.
    change (is_str (JStr (u "output")) (u "output")) with true. cbv iota.
    unfold bind at 1. unfold subscript. rewrite Hc. reflexivity. }
  split; [exact Hbody|]. split; [|split].
  - intros fuel. unfold process_chat. simpl. now rewrite Hbody.
  - unfold st', after_reply, after_llm, logged, appended. cbn [trace].
    now rewrite <- app_assoc.
  - exists ([10] ++ u "                    <div style='background-color:#F0F8FF;padding:15px;border-radius:10px;border-left:5px solid #6A5ACD;'>"
             ++ [10] ++ u "                        <strong>🤖 Final Answer:</strong><br>").
    exists ([10] ++ u "                    </div>" ++ [10] ++ u "                ").
    intros c. unfold final_answer. now rewrite <- !app_assoc.
Qed.

(** C9: a reply that parses to an object whose step is "plan" or
    "output" and which has no "content" key is appended in its
    re-serialized form, and then the round raises [KeyError], which
    nothing handles: the run ends with that exception.  Reading a key
    with [get], as the loop does for "step", "function" and "input",
    never raises on an object. *)
Theorem missing_content_raises
    (w : World) (st : State) (reply : pystr) (d : dict) (tag : pystr) :
  chat_completions_create w (trace st) (messages st) = Reply reply ->
  loads reply = Some (JObj d) ->
  dict_get d (u "step") = JStr tag ->
  tag = u "plan" \/ tag = u "output" ->
  dict_lookup d (u "content") = None ->
  loop_body w st = (Raise (KeyError (u "content")), after_reply st (JObj d))
  /\ (forall fuel,
        process_chat w (S fuel) st
        = (Finished (Raise (KeyError (u "content"))), after_reply st (JObj d)))
  /\ messages (after_reply st (JObj d))
     = messages st ++ [ {| role := assistant; content := dumps (JObj d) |} ]
  /\ forall key st0, py_get (JObj d) key st0 = (Ok (dict_get d key), st0).
Proof.
  intros Hllm Hloads Hstep Htag Hc.
  assert (Hbody : loop_body w st
                  = (Raise (KeyError (u "content")), after_reply st (JObj d))).
  { rewrite (loop_body_parsed w st reply (JObj d) Hllm Hloads).
    unfold dispatch, py_get. unfold bind at 1. unfold ret at 1. rewrite Hstep.
    destruct Htag as [-> | ->].
    - change (is_str (JStr (u "plan")) (u "plan")) with true. cbv iota.
      unfold bind at 1. unfold subscript. rewrite Hc. reflexivity.
    - change (is_str (JStr (u "output")) (u "plan")) with false.
      change (is_str (JStr (u "output")) (u "action")) with false.
      change (is_str (JStr (u "output")) (u "output")) with true. cbv iota.
      unfold bind at 1. unfold subscript. rewrite Hc. reflexivity. }
  split; [exact Hbody|]. split; [|split; reflexivity].
  intros fuel. unfold process_chat. simpl. now rewrite Hbody.
Qed.

(** Unfolding one round on a reply that does not parse. *)
Lemma loop_body_not_json (w : World) (st : State) (reply : pystr) :
  chat_completions_create w (trace st) (messages st) = Reply reply ->
  loads reply = None ->
  loop_body w st = (Ok Break, after_parse_error st reply).
Proof.
  intros Hllm Hloads.
  unfold loop_body, call_llm. unfold bind at 1. rewrite Hllm.
  cbv zeta iota beta. unfold handle_reply. rewrite Hloads. reflexivity.
Qed.

(** Unfolding one round when the LLM call gives no reply. *)
Lemma loop_body_no_reply (w : World) (st : State) :
  chat_completions_create w (trace st) (messages st) = NoContent
  \/ chat_completions_create w (trace st) (messages st) = APIFault ->
  exists e, loop_body w st = (Raise e, after_llm st).
Proof.
  intros [H|H]; unfold loop_body, call_llm; unfold bind at 1; rewrite H;
    eexists; reflexivity.
Qed.

(** C2, as the code has it: a reply that is not valid JSON is handled at
    the loop boundary.  The user is notified, the raw reply is appended
    unchanged as the last assistant message, and the loop stops after
    this single failed parse, with no further LLM call. *)
Theorem invalid_json_stops (w : World) (st : State) (reply : pystr) :
  chat_completions_create w (trace st) (messages st) = Reply reply ->
  loads reply = None ->
  loop_body w st = (Ok Break, after_parse_error st reply)
  /\ (forall fuel,
        process_chat w (S fuel) st = (Finished (Ok tt), after_parse_error st reply))
  /\ messages (after_parse_error st reply)
     = messages st ++ [ {| role := assistant; content := reply |} ]
  /\ trace (after_parse_error st reply)
     = trace st
       ++ [ LLMCall (messages st);
            Show st_error (u "⚠️ LLM response was not in expected JSON format.") ].
Proof.
  intros Hllm Hloads.
  pose proof (loop_body_not_json w st reply Hllm Hloads) as Hbody.
  split; [exact Hbody|]. split; [|split].
  - intros fuel. unfold process_chat. simpl. now rewrite Hbody.
  - reflexivity.
  - unfold after_parse_error, after_llm, logged, appended. cbn [trace].
    now rewrite <- app_assoc.
Qed.

(** ** The tool functions *)

Lemma lstrip_spec (s : pystr) :
  exists lead,
    s = lead ++ lstrip s /\ forallb isspace lead = true
    /\ (forall c r, lstrip s = c :: r -> isspace c = false).
Proof.
  induction s as [|c s (lead & E & Hl & Hh)]; simpl.
  - exists []. repeat split; auto. discriminate.
  - destruct (isspace c) eqn:Ec.
    + exists (c :: lead). simpl. rewrite Ec, Hl. repeat split; auto.
      now rewrite <- E.
    + exists []. repeat split; auto. now intros c' r [= <- _].
Qed.

(** [strip] removes white space at both ends and nothing else. *)
Lemma strip_spec (s : pystr) :
  exists lead trail,
    s = lead ++ strip s ++ trail
    /\ forallb isspace lead = true /\ forallb isspace trail = true
    /\ trimmed (strip s).
Proof.
  destruct (lstrip_spec s) as (lead & E & Hl & Hh).
  destruct (lstrip_spec (List.rev (lstrip s))) as (lead2 & E2 & Hl2 & Hh2).
  assert (Em : lstrip s = strip s ++ List.rev lead2).
  { unfold strip. rewrite <- rev_app_distr, <- E2. now rewrite rev_involutive. }
  exists lead, (List.rev lead2). split; [|split; [|split]].
  - now rewrite <- Em.
  - assumption.
  - rewrite forallb_forall in *. intros x Hx. apply Hl2. now apply in_rev.
  - split.
    + intros c r Hs. rewrite Hs in Em. simpl in Em. eapply Hh. exact Em.
    + intros c r Hs. unfold strip in Hs.
      apply (f_equal (@List.rev _)) in Hs.
      rewrite rev_involutive, rev_app_distr in Hs. simpl in Hs.
      eapply Hh2. exact Hs.
Qed.

(** C5, as the code has it: when the weather endpoint answers with
    status 200, [get_weather] returns the sentence built from the city
    and the response body without the white space around it; for
    "Lahore" and "Sunny +25°C" this is the sentence of Scenario A. *)
Theorem get_weather_success
    (w : World) (st : State) (city : pystr) (resp : response) :
  requests_get w (trace st) (weather_url (JStr city)) = Some resp ->
  status_code resp = 200%Z ->
  get_weather w (JStr city) st
  = (Ok (u "🌦️ The weather in **" ++ city ++ u "** is `"
           ++ strip (text resp) ++ u "`."),
     logged st (HttpGet (weather_url (JStr city))))
  /\ (exists lead trail,
        text resp = lead ++ strip (text resp) ++ trail
        /\ forallb isspace lead = true /\ forallb isspace trail = true
        /\ trimmed (strip (text resp)))
  /\ (city = u "Lahore" -> text resp = u "Sunny +25°C" ->
      fst (get_weather w (JStr city) st)
      = Ok (u "🌦️ The weather in **Lahore** is `Sunny +25°C`.")).
Proof.
  intros Hget Hst.
  assert (Hrun : get_weather w (JStr city) st
                 = (Ok (u "🌦️ The weather in **" ++ city ++ u "** is `"
                          ++ strip (text resp) ++ u "`."),
                    logged st (HttpGet (weather_url (JStr city))))).
  { unfold get_weather. unfold bind, http_get.
    fold (weather_url (JStr city)). rewrite Hget. cbv zeta iota beta.
    rewrite Hst. reflexivity. }
  split; [exact Hrun|]. split; [apply strip_spec|].
  intros -> Hbody. rewrite Hrun, Hbody. reflexivity.
Qed.

(** C7: on any status other than 200 [get_weather] returns the same
    fixed message, whatever the city and the status, and does not
    raise. *)
Theorem get_weather_failure
    (w : World) (st : State) (city : json) (resp : response) :
  requests_get w (trace st) (weather_url city) = Some resp ->
  status_code resp <> 200%Z ->
  get_weather w city st
  = (Ok (u "❌ Unable to fetch weather at the moment."),
     logged st (HttpGet (weather_url city))).
Proof.
  intros Hget Hst.
  unfold get_weather. unfold bind, http_get.
  fold (weather_url city). rewrite Hget. cbv zeta iota beta.
  apply Z.eqb_neq in Hst. rewrite Hst. reflexivity.
Qed.

Lemma format_item_ok (item : json) (st : State) :
  has_title_and_link item ->
  format_item item st = (Ok (result_block item), st).
Proof.
  intros (d & title & link & -> & Ht & Hl).
  unfold format_item, subscript, bind, ret, result_block, dict_get.
  now rewrite Ht, Hl.
Qed.

Lemma for_each_ok (items : list json) (results : list pystr) (st : State) :
  Forall has_title_and_link items ->
  for_each items results st = (Ok (results ++ map result_block items), st).
Proof.
  revert results. induction items as [|x l IH]; intros results H; simpl.
  - now rewrite List.app_nil_r.
  - inversion H; subst. unfold bind. rewrite format_item_ok by assumption.
    rewrite IH by assumption. now rewrite <- app_assoc.
Qed.

Lemma join_blocks_nonempty (x : json) (l : list json) :
  has_title_and_link x ->
  is_nil (join [10; 10] (map result_block (x :: l))) = false.
Proof.
  intros (d & title & link & -> & _).
  destruct l; reflexivity.
Qed.

Lemma google_search_unfold (w : World) (query : json) :
  google_search w query
  = (response <- http_get w (search_url w query) ;;
     if (status_code response =? 200)%Z
     then
       data <- response_json response ;;
       items <- get_items data ;;
       first3 <- slice3 items ;;
       results <- for_each first3 [] ;;
       ret (if is_nil (join [10; 10] results) then u "No results found."
            else join [10; 10] results)
     else ret (u "❌ Search failed: " ++ int_str (status_code response)
                 ++ u " - " ++ text response)).
Proof. unfold google_search, search_url. cbv zeta. reflexivity. Qed.

Lemma http_get_ok (w : World) (st : State) (url : pystr) (resp : response) :
  requests_get w (trace st) url = Some resp ->
  http_get w url st = (Ok resp, logged st (HttpGet url)).
Proof. intros H. unfold http_get. now rewrite H. Qed.

Lemma get_items_ok (data : dict) (items : list json) (st : State) :
  match dict_lookup data (u "items") with
  | Some v => v = JArr items
  | None => items = []
  end ->
  get_items (JObj data) st = (Ok (JArr items), st).
Proof.
  unfold get_items. destruct (dict_lookup data (u "items")); intros ->; reflexivity.
Qed.

(** C6: when the search endpoint answers with status 200 and a JSON
    object, [google_search] takes at most the first three items, formats
    the title and the link of each as a two-line block, joins the blocks
    with one blank line, and returns "No results found." when there is
    no item. *)
Theorem google_search_success
    (w : World) (st : State) (query : pystr) (resp : response)
    (data : dict) (items : list json) :
  requests_get w (trace st) (search_url w (JStr query)) = Some resp ->
  status_code resp = 200%Z ->
  loads (text resp) = Some (JObj data) ->
  match dict_lookup data (u "items") with
  | Some v => v = JArr items
  | None => items = []
  end ->
  Forall has_title_and_link (firstn 3 items) ->
  google_search w (JStr query) st
  = (Ok match items with
        | [] => u "No results found."
        | _ :: _ => join [10; 10] (map result_block (firstn 3 items))
        end,
     logged st (HttpGet (search_url w (JStr query))))
  /\ (List.length (firstn 3 items) <= 3)%nat.
Proof.
  intros Hget Hst Hjson Hitems Hok.
  split; [|apply firstn_le_length].
  rewrite google_search_unfold.
  unfold bind at 1. rewrite (http_get_ok _ _ _ _ Hget).
  rewrite Hst. change (200 =? 200)%Z with true. cbv iota.
  unfold bind at 1. unfold response_json. rewrite Hjson. unfold ret at 1.
  unfold bind at 1. rewrite (get_items_ok _ _ _ Hitems).
  unfold bind at 1. unfold slice3, ret at 1.
  unfold bind at 1. rewrite for_each_ok by assumption.
  unfold ret. rewrite List.app_nil_l.
  destruct items as [|x l].
  - reflexivity.
  - remember (firstn 3 (x :: l)) as f3 eqn:Ef.
    cbn [firstn] in Ef. subst f3.
    rewrite join_blocks_nonempty; [reflexivity|].
    now inversion Hok.
Qed.

(** ** The messages a run appends *)

Lemma adds_json_refl (st : State) : adds_json st st.
Proof. exists []. split; [now rewrite List.app_nil_r|constructor]. Qed.

Lemma adds_json_trans (a b c : State) :
  adds_json a b -> adds_json b c -> adds_json a c.
Proof.
  intros (l1 & E1 & F1) (l2 & E2 & F2). exists (l1 ++ l2). split.
  - now rewrite E2, E1, <- app_assoc.
  - apply Forall_app; auto.
Qed.

Lemma adds_json_logged (st : State) (e : event) : adds_json st (logged st e).
Proof. exists []. split; [simpl; now rewrite List.app_nil_r|constructor]. Qed.

Lemma adds_json_logged_other (st : State) (e : event) :
  llm_event e = false -> adds_json st (logged st e).
Proof. intros _. apply adds_json_logged. Qed.

Lemma adds_json_appended (st : State) (v : json) :
  floats_ok v -> adds_json st (appended st assistant (dumps v)).
Proof.
  intros Hf. exists [ {| role := assistant; content := dumps v |} ].
  split; [reflexivity|]. constructor; [|constructor].
  split; [reflexivity|]. unfold is_json. cbn [content].
  now rewrite loads_dumps.
Qed.

Lemma floats_ok_observe (out : pystr) : floats_ok (observe_step out).
Proof. unfold floats_ok. cbn. constructor. Qed.

(** One round either appends valid JSON only, or gives up on a reply
    that is not JSON and appends that reply. *)
Lemma loop_body_messages (w : World) (st : State) :
  (forall f : pyfloat, float_ok f) ->
  adds_json st (snd (loop_body w st))
  \/ exists raw,
       loop_body w st = (Ok Break, after_parse_error st raw) /\ loads raw = None.
Proof.
  intros Hfloat.
  destruct (chat_completions_create w (trace st) (messages st))
    as [reply| |] eqn:Hllm.
  - destruct (loads reply) as [parsed|] eqn:E.
    + left. rewrite (loop_body_parsed w st reply parsed Hllm E).
      apply (adds_json_trans st (after_reply st parsed)).
      * apply (adds_json_trans st (after_llm st)); [apply adds_json_logged|].
        apply (adds_json_appended (after_llm st) parsed).
        unfold floats_ok. apply Forall_forall. intros f _. apply Hfloat.
      * apply (preserves_dispatch w adds_json adds_json_refl adds_json_trans
                 adds_json_logged_other parsed
                 (fun st0 out => adds_json_appended st0 (observe_step out)
                                   (floats_ok_observe out))
                 (after_reply st parsed)).
    + right. exists reply. split; [|exact E].
      now apply loop_body_not_json.
  - left. destruct (loop_body_no_reply w st (or_introl Hllm)) as [e ->].
    apply adds_json_logged.
  - left. destruct (loop_body_no_reply w st (or_intror Hllm)) as [e ->].
    apply adds_json_logged.
Qed.

(** C3, as the code has it: every message a run of the loop appends is
    an assistant message holding valid JSON (the serialization of the
    reply as it was parsed, whatever its shape, or of an observe Step),
    except the message appended right before the loop stops on a reply
    that is not JSON, which holds that reply as it came.  The floats of
    the replies are assumed to be printed and read back faithfully. *)
Theorem appended_messages_are_json (w : World) (fuel : nat) (st : State) :
  (forall f : pyfloat, float_ok f) ->
  exists app,
    messages (snd (process_chat w fuel st)) = messages st ++ app
    /\ Forall (fun m => role m = assistant) app
    /\ (Forall json_message app
        \/ exists app' raw,
             app = app' ++ [ {| role := assistant; content := raw |} ]
             /\ Forall json_message app'
             /\ loads raw = None
             /\ fst (process_chat w fuel st) = Finished (Ok tt)).
Proof.
  intros Hfloat. unfold process_chat.
  revert st. induction fuel as [|n IH]; intros st.
  - exists []. cbn [while_true snd]. split; [now rewrite List.app_nil_r|].
    split; [constructor|left; constructor].
  - cbn [while_true].
    destruct (loop_body_messages w st Hfloat) as [(app1 & E1 & F1)|(raw & E & Hraw)].
    + assert (R1 : Forall (fun m => role m = assistant) app1).
      { eapply Forall_impl; [|exact F1]. now intros m [Hr _]. }
      destruct (loop_body w st) as [[[|]|e] st1]; cbn [snd] in E1.
      * destruct (IH st1) as (app2 & E2 & R2 & H2).
        exists (app1 ++ app2). split; [now rewrite E2, E1, <- app_assoc|].
        split; [now apply Forall_app|].
        destruct H2 as [F2|(app' & raw & -> & F2 & Hraw & Hfin)].
        -- left. now apply Forall_app.
        -- right. exists (app1 ++ app'), raw. rewrite <- app_assoc.
           repeat split; auto. now apply Forall_app.
      * exists app1. cbn [snd]. auto.
      * exists app1. cbn [snd]. auto.
    + rewrite E. cbn [snd fst].
      exists [ {| role := assistant; content := raw |} ].
      split; [reflexivity|]. split; [repeat constructor|].
      right. exists [], raw. repeat split; auto.
Qed.

(** ** The Step round trip *)

Lemma step_of_json_to_json (s : Step) : step_of_json (step_to_json s) = Some s.
Proof.
  destruct s as [t c [f|] [i|]]; destruct t; vm_compute; reflexivity.
Qed.

Lemma step_to_json_floats (s : Step) : floats_ok (step_to_json s).
Proof.
  unfold floats_ok.
  destruct s as [t c [f|] [i|]]; cbn; constructor.
Qed.

Lemma step_to_json_canonical (s : Step) :
  step_well_formed s = true -> canonical (step_to_json s) = true.
Proof.
  unfold step_well_formed.
  destruct s as [t c [f|] [i|]]; cbn [step_content step_function step_input
                                        optional_well_formed];
    intros H; repeat (apply andb_true_iff in H as [H ?]);
    unfold step_to_json, optional_member;
    cbn [step_tag step_content step_function step_input List.app canonical
           forallb fst snd];
    repeat match goal with
           | E : well_formed ?x = true |- _ => rewrite E; clear E
           end;
    destruct t; vm_compute; reflexivity.
Qed.

(** C10, as the code has it: serializing a Step whose strings are well
    formed and parsing the text back yields a Step with the same step,
    content, function and input. *)
Theorem step_round_trip_well_formed (s : Step) :
  step_well_formed s = true -> step_round_trip s = Some s.
Proof.
  intros H. unfold step_round_trip.
  rewrite loads_dumps_canonical.
  - apply step_of_json_to_json.
  - apply step_to_json_floats.
  - now apply step_to_json_canonical.
Qed.

(** ** Further properties of the loop *)

Lemma finished_by_break (w : World) (st st' : State) :
  loop_body w st = (Ok Break, st') ->
  forall fuel, process_chat w (S fuel) st = (Finished (Ok tt), st').
Proof. intros H fuel. unfold process_chat. cbn [while_true]. now rewrite H. Qed.

Lemma finished_by_exception (w : World) (st st' : State) (e : exn) :
  loop_body w st = (Raise e, st') ->
  forall fuel, process_chat w (S fuel) st = (Finished (Raise e), st').
Proof. intros H fuel. unfold process_chat. cbn [while_true]. now rewrite H. Qed.

(** X1: a reply that parses to a plan Step with a content makes the
    loop append exactly one assistant message (the plan in canonical
    form), show the plan, and go on with an LLM call on the extended
    conversation. *)
Theorem plan_continues
    (w : World) (st : State) (reply : pystr) (d : dict) (c : json) :
  chat_completions_create w (trace st) (messages st) = Reply reply ->
  loads reply = Some (JObj d) ->
  dict_get d (u "step") = JStr (u "plan") ->
  dict_lookup d (u "content") = Some c ->
  let st' := logged (after_reply st (JObj d))
                    (Show st_info (u "📌 **Plan**: " ++ py_str c)) in
  loop_body w st = (Ok Continue, st')
  /\ messages st'
     = messages st ++ [ {| role := assistant; content := dumps (JObj d) |} ]
  /\ trace st'
     = trace st ++ [ LLMCall (messages st);
                     Show st_info (u "📌 **Plan**: " ++ py_str c) ]
  /\ forall fuel,
       process_chat w (S fuel) st = process_chat w fuel st'
       /\ exists tl,
            trace (snd (process_chat w (S (S fuel)) st))
            = trace st' ++ LLMCall (messages st') :: tl.
Proof.
  intros Hllm Hloads Hstep Hc st'.
  assert (Hbody : loop_body w st = (Ok Continue, st')).
  { rewrite (loop_body_parsed w st reply (JObj d) Hllm Hloads).
    unfold dispatch, py_get. unfold bind at 1. unfold ret at 1. rewrite Hstep.
    change (is_str (JStr (u "plan")) (u "plan")) with true. cbv iota.
    unfold bind at 1. unfold subscript. rewrite Hc. reflexivity. }
  split; [exact Hbody|]. split; [reflexivity|]. split.
  - unfold st', after_reply, after_llm, logged, appended. cbn [trace].
    now rewrite <- app_assoc.
  - apply continue_then_llm. exact Hbody.
Qed.

(** X2: a reply that parses to an object whose step is none of "plan",
    "action" and "output" (also "observe", a missing step, a step that
    is not a string) is appended, a warning is shown, and the loop
    stops without a further LLM call. *)
Theorem unrecognized_step_stops
    (w : World) (st : State) (reply : pystr) (d : dict) :
  chat_completions_create w (trace st) (messages st) = Reply reply ->
  loads reply = Some (JObj d) ->
  is_str (dict_get d (u "step")) (u "plan") = false ->
  is_str (dict_get d (u "step")) (u "action") = false ->
  is_str (dict_get d (u "step")) (u "output") = false ->
  let st' := logged (after_reply st (JObj d))
                    (Show st_warning (u "⚠️ Unrecognized step.")) in
  loop_body w st = (Ok Break, st')
  /\ (forall fuel, process_chat w (S fuel) st = (Finished (Ok tt), st'))
  /\ messages st'
     = messages st ++ [ {| role := assistant; content := dumps (JObj d) |} ]
  /\ trace st'
     = trace st ++ [ LLMCall (messages st);
                     Show st_warning (u "⚠️ Unrecognized step.") ].
Proof.
  intros Hllm Hloads H1 H2 H3 st'.
  assert (Hbody : loop_body w st = (Ok Break, st')).
  { rewrite (loop_body_parsed w st reply (JObj d) Hllm Hloads).
    unfold dispatch, py_get. unfold bind at 1. unfold ret at 1.
    rewrite H1, H2, H3. reflexivity. }
  split; [exact Hbody|]. split; [now apply finished_by_break|].
  split; [reflexivity|].
  unfold st', after_reply, after_llm, logged, appended. cbn [trace].
  now rewrite <- app_assoc.
Qed.

(** X3: a reply that is valid JSON but not an object (a list, a string,
    a number, a boolean, null) is appended in canonical form, and then
    [parsed.get] raises [AttributeError], which ends the run. *)
Theorem non_object_reply_raises
    (w : World) (st : State) (reply : pystr) (v : json) :
  chat_completions_create w (trace st) (messages st) = Reply reply ->
  loads reply = Some v ->
  (forall d, v <> JObj d) ->
  loop_body w st = (Raise AttributeError, after_reply st v)
  /\ (forall fuel,
        process_chat w (S fuel) st
        = (Finished (Raise AttributeError), after_reply st v))
  /\ messages (after_reply st v)
     = messages st ++ [ {| role := assistant; content := dumps v |} ].
Proof.
  intros Hllm Hloads Hv.
  assert (Hbody : loop_body w st = (Raise AttributeError, after_reply st v)).
  { rewrite (loop_body_parsed w st reply v Hllm Hloads).
    unfold dispatch, py_get. unfold bind at 1.
    destruct v; try reflexivity. now destruct (Hv members). }
  split; [exact Hbody|]. split; [now apply finished_by_exception|reflexivity].
Qed.

(** X4: an action Step whose function is a list or an object cannot be
    looked up in the registry: the membership test raises [TypeError],
    which ends the run after the action message was appended; no tool
    is called. *)
Theorem unhashable_function_raises
    (w : World) (st : State) (reply : pystr) (d : dict) :
  chat_completions_create w (trace st) (messages st) = Reply reply ->
  loads reply = Some (JObj d) ->
  dict_get d (u "step") = JStr (u "action") ->
  hashable (dict_get d (u "function")) = false ->
  loop_body w st = (Raise TypeError, after_reply st (JObj d))
  /\ (forall fuel,
        process_chat w (S fuel) st
        = (Finished (Raise TypeError), after_reply st (JObj d)))
  /\ trace (after_reply st (JObj d)) = trace st ++ [LLMCall (messages st)].
Proof.
  intros Hllm Hloads Hstep Hhash.
  assert (Hbody : loop_body w st = (Raise TypeError, after_reply st (JObj d))).
  { rewrite (loop_body_parsed w st reply (JObj d) Hllm Hloads).
    unfold dispatch, py_get. unfold bind at 1. unfold ret at 1. rewrite Hstep.
    change (is_str (JStr (u "action")) (u "plan")) with false.
    change (is_str (JStr (u "action")) (u "action")) with true. cbv iota.
    unfold bind at 1. unfold ret at 1.
    unfold bind at 1. unfold ret at 1.
    unfold bind at 1. unfold find_tool.
    destruct (dict_get d (u "function")); try discriminate Hhash; reflexivity. }
  split; [exact Hbody|]. split; [now apply finished_by_exception|reflexivity].
Qed.

(** X5: when the LLM call gives no text or fails, the run ends with an
    exception ([TypeError] from [json.loads(None)], or the client's
    error) after that single call, and the conversation is unchanged. *)
Theorem llm_failure_ends_run (w : World) (st : State) (c : completion) :
  chat_completions_create w (trace st) (messages st) = c ->
  (forall reply, c <> Reply reply) ->
  (forall fuel,
     process_chat w (S fuel) st
     = (Finished (Raise match c with
                        | NoContent => TypeError
                        | _ => APIError
                        end),
        after_llm st))
  /\ messages (after_llm st) = messages st
  /\ trace (after_llm st) = trace st ++ [LLMCall (messages st)].
Proof.
  intros Hc Hn. split; [|split; reflexivity].
  apply finished_by_exception.
  unfold loop_body, call_llm. unfold bind at 1. rewrite Hc.
  destruct c as [reply| |]; [now destruct (Hn reply)|reflexivity|reflexivity].
Qed.

(** X10: when the function of a registered tool raises, the loop does
    not handle it: the run ends with that exception, the action message
    stays appended and no observe message is appended. *)
Theorem tool_exception_ends_run
    (w : World) (st : State) (reply : pystr) (d : dict) (F : pystr)
    (tool : Tool) (e : exn) (st2 : State) :
  chat_completions_create w (trace st) (messages st) = Reply reply ->
  loads reply = Some (JObj d) ->
  dict_get d (u "step") = JStr (u "action") ->
  dict_get d (u "function") = JStr F ->
  registry_find (available_tools w) F = Some tool ->
  fn tool (dict_get d (u "input")) (after_reply st (JObj d)) = (Raise e, st2) ->
  loop_body w st = (Raise e, st2)
  /\ (forall fuel, process_chat w (S fuel) st = (Finished (Raise e), st2))
  /\ messages st2
     = messages st ++ [ {| role := assistant; content := dumps (JObj d) |} ].
Proof.
  intros Hllm Hloads Hstep Hfun Hreg Hrun.
  assert (Hbody : loop_body w st = (Raise e, st2)).
  { rewrite (loop_body_parsed w st reply (JObj d) Hllm Hloads).
    unfold dispatch, py_get. unfold bind at 1. unfold ret at 1. rewrite Hstep.
    change (is_str (JStr (u "action")) (u "plan")) with false.
    change (is_str (JStr (u "action")) (u "action")) with true. cbv iota.
    unfold bind at 1. unfold ret at 1. rewrite Hfun.
    unfold bind at 1. unfold ret at 1.
    unfold bind at 1. unfold find_tool, ret at 1. rewrite Hreg.
    unfold bind at 1. rewrite Hrun. reflexivity. }
  split; [exact Hbody|]. split; [now apply finished_by_exception|].
  pose proof (tool_same_messages w F tool (dict_get d (u "input"))
                (after_reply st (JObj d)) Hreg) as Hm.
  rewrite Hrun in Hm. exact Hm.
Qed.

(** ** Further properties of the tool functions *)

(** X6: on any status other than 200 [google_search] returns (it does
    not raise) the failure text holding the status in decimal and the
    body as it came, after one request. *)
Theorem google_search_failure
    (w : World) (st : State) (query : json) (resp : response) :
  requests_get w (trace st) (search_url w query) = Some resp ->
  status_code resp <> 200%Z ->
  google_search w query st
  = (Ok (u "❌ Search failed: " ++ int_str (status_code resp)
           ++ u " - " ++ text resp),
     logged st (HttpGet (search_url w query)))
  /\ int_of_str (int_str (status_code resp)) = status_code resp.
Proof.
  intros Hget Hst. split; [|apply int_of_str_int_str].
  rewrite google_search_unfold.
  unfold bind at 1. rewrite (http_get_ok _ _ _ _ Hget).
  apply Z.eqb_neq in Hst. rewrite Hst. reflexivity.
Qed.

(** X7: on status 200, a body that is not JSON makes [google_search]
    raise [JSONDecodeError], and a body that is JSON but not an object
    makes it raise [AttributeError]: the tool does not turn these into a
    message. *)
Theorem google_search_bad_body_raises
    (w : World) (st : State) (query : json) (resp : response) :
  requests_get w (trace st) (search_url w query) = Some resp ->
  status_code resp = 200%Z ->
  (forall d, loads (text resp) <> Some (JObj d)) ->
  google_search w query st
  = (Raise match loads (text resp) with
           | None => JSONDecodeError
           | Some _ => AttributeError
           end,
     logged st (HttpGet (search_url w query))).
Proof.
  intros Hget Hst Hbody.
  rewrite google_search_unfold.
  unfold bind at 1. rewrite (http_get_ok _ _ _ _ Hget).
  rewrite Hst. change (200 =? 200)%Z with true. cbv iota.
  unfold bind at 1. unfold response_json.
  destruct (loads (text resp)) as [v|]; [|reflexivity].
  unfold ret at 1. unfold bind at 1. unfold get_items.
  destruct v; try reflexivity. now destruct (Hbody members).
Qed.

Lemma for_each_raises (good : list json) (d : dict) (rest : list json)
    (key : pystr) (results : list pystr) (st : State) :
  Forall has_title_and_link good ->
  missing_key d = Some key ->
  for_each (good ++ JObj d :: rest) results st = (Raise (KeyError key), st).
Proof.
  intros Hgood Hkey. revert results.
  induction good as [|x l IH]; intros results.
  - cbn [List.app for_each]. unfold bind at 1.
    unfold format_item, subscript, missing_key in *. unfold bind at 1.
    destruct (dict_lookup d (u "title")) as [t|].
    + unfold ret at 1. unfold bind at 1.
      destruct (dict_lookup d (u "link")); [discriminate|].
      injection Hkey as <-. reflexivity.
    + injection Hkey as <-. reflexivity.
  - inversion Hgood; subst. cbn [List.app for_each]. unfold bind at 1.
    rewrite format_item_ok by assumption. now apply IH.
Qed.

(** X8: on status 200, when one of the first three items is an object
    without "title", or with "title" and without "link", and the items
    before it are complete, [google_search] raises [KeyError] on that
    key instead of returning the results it has. *)
Theorem google_search_item_without_key
    (w : World) (st : State) (query : json) (resp : response)
    (data d : dict) (good rest : list json) (key : pystr) :
  requests_get w (trace st) (search_url w query) = Some resp ->
  status_code resp = 200%Z ->
  loads (text resp) = Some (JObj data) ->
  dict_lookup data (u "items") = Some (JArr (good ++ JObj d :: rest)) ->
  (List.length good < 3)%nat ->
  Forall has_title_and_link good ->
  missing_key d = Some key ->
  google_search w query st
  = (Raise (KeyError key), logged st (HttpGet (search_url w query))).
Proof.
  intros Hget Hst Hjson Hitems Hlen Hgood Hkey.
  rewrite google_search_unfold.
  unfold bind at 1. rewrite (http_get_ok _ _ _ _ Hget).
  rewrite Hst. change (200 =? 200)%Z with true. cbv iota.
  unfold bind at 1. unfold response_json. rewrite Hjson. unfold ret at 1.
  unfold bind at 1. unfold get_items. rewrite Hitems. unfold ret at 1.
  unfold bind at 1. unfold slice3, ret at 1.
  unfold bind at 1.
  assert (E : firstn 3 (good ++ JObj d :: rest)
              = good ++ JObj d :: firstn (2 - List.length good) rest).
  { rewrite firstn_app. rewrite firstn_all2 by lia.
    destruct (3 - List.length good)%nat as [|k] eqn:Ek; [lia|].
    cbn [firstn]. repeat f_equal. lia. }
  rewrite E. rewrite (for_each_raises good d _ key [] _ Hgood Hkey).
  reflexivity.
Qed.

Lemma pure_subscript (item : json) (key : pystr) (st : State) :
  snd (subscript item key st) = st.
Proof.
  unfold subscript, ret, raise. destruct item; try reflexivity.
  now destruct (dict_lookup members key).
Qed.

Lemma pure_for_each (items : list json) (results : list pystr) (st : State) :
  snd (for_each items results st) = st.
Proof.
  revert results. induction items as [|x l IH]; intros results; [reflexivity|].
  cbn [for_each]. unfold bind at 1. unfold format_item.
  unfold bind at 1. pose proof (pure_subscript x (u "title") st) as H1.
  destruct (subscript x (u "title") st) as [[t|e] st1]; cbn [snd] in H1; subst st1;
    [|reflexivity].
  unfold bind at 1. pose proof (pure_subscript x (u "link") st) as H2.
  destruct (subscript x (u "link") st) as [[l0|e] st1]; cbn [snd] in H2; subst st1;
    [|reflexivity].
  unfold ret at 1. apply IH.
Qed.

(** X9: whatever the input and whatever the endpoint answers, each tool
    function makes exactly one HTTP request, to its own address, and
    does nothing else to the session: no message is appended, nothing
    is shown, also when the tool raises. *)
Theorem tools_make_one_request (w : World) (v : json) (st : State) :
  snd (get_weather w v st) = logged st (HttpGet (weather_url v))
  /\ snd (google_search w v st) = logged st (HttpGet (search_url w v)).
Proof.
  split.
  - unfold get_weather. unfold bind, http_get. fold (weather_url v).
    destruct (requests_get w (trace st) (weather_url v)) as [r|]; [|reflexivity].
    cbv zeta iota beta. now destruct (status_code r =? 200)%Z.
  - rewrite google_search_unfold. unfold bind at 1. unfold http_get.
    destruct (requests_get w (trace st) (search_url w v)) as [r|]; [|reflexivity].
    cbv zeta iota beta. destruct (status_code r =? 200)%Z; [|reflexivity].
    unfold bind at 1. unfold response_json.
    destruct (loads (text r)) as [data|]; [|reflexivity].
    unfold ret at 1. unfold bind at 1. unfold get_items.
    assert (Hrest : forall items st0,
              snd ((first3 <- slice3 items ;;
                    results <- for_each first3 [] ;;
                    ret (if is_nil (join [10; 10] results)
                         then u "No results found."
                         else join [10; 10] results)) st0) = st0).
    { intros items st0. unfold bind at 1. unfold slice3.
      destruct items; try reflexivity; unfold ret at 1; unfold bind at 1;
        match goal with
        | |- context [for_each ?l [] st0] =>
          pose proof (pure_for_each l [] st0) as Hp;
          destruct (for_each l [] st0) as [[res|e] st1]; cbn [snd] in Hp;
          subst st1; reflexivity
        end. }
    destruct data; try reflexivity.
    destruct (dict_lookup members (u "items")); unfold ret at 1; apply Hrest.
Qed.

(** ** Properties of whole runs *)

Lemma adds_assistant_refl (st : State) : adds_assistant st st.
Proof. exists []. split; [now rewrite List.app_nil_r|constructor]. Qed.

Lemma adds_assistant_trans (a b c : State) :
  adds_assistant a b -> adds_assistant b c -> adds_assistant a c.
Proof.
  intros (l1 & E1 & F1) (l2 & E2 & F2). exists (l1 ++ l2). split.
  - now rewrite E2, E1, <- app_assoc.
  - apply Forall_app; auto.
Qed.

Lemma adds_assistant_logged (st : State) (e : event) :
  adds_assistant st (logged st e).
Proof. exists []. split; [simpl; now rewrite List.app_nil_r|constructor]. Qed.

Lemma adds_assistant_appended (st : State) (c : pystr) :
  adds_assistant st (appended st assistant c).
Proof.
  exists [ {| role := assistant; content := c |} ].
  split; [reflexivity|repeat constructor].
Qed.

Lemma run_adds_assistant (w : World) (fuel : nat) (st : State) :
  adds_assistant st (snd (process_chat w fuel st)).
Proof.
  unfold process_chat.
  apply (preserves_while_true adds_assistant adds_assistant_refl
           adds_assistant_trans).
  apply (preserves_loop_body w adds_assistant adds_assistant_refl
           adds_assistant_trans).
  - intros s e _. apply adds_assistant_logged.
  - intros s. apply adds_assistant_logged.
  - apply adds_assistant_appended.
Qed.

(** X11: a run of the loop, observed for any number of rounds and
    however it ends, only appends to the conversation, and only
    assistant messages: no earlier message is removed, changed or
    reordered, and no user or system message is added. *)
Theorem conversation_append_only (w : World) (fuel : nat) (st : State) :
  exists app,
    messages (snd (process_chat w fuel st)) = messages st ++ app
    /\ Forall (fun m => role m = assistant) app.
Proof. exact (run_adds_assistant w fuel st). Qed.

Lemma replays_refl (st : State) : replays st st.
Proof.
  exists [], []. rewrite !List.app_nil_r.
  split; [reflexivity|]. split; [reflexivity|]. intros ms [].
Qed.

Lemma replays_trans (a b c : State) : replays a b -> replays b c -> replays a c.
Proof.
  intros (t1 & l1 & T1 & M1 & H1) (t2 & l2 & T2 & M2 & H2).
  exists (t1 ++ t2), (l1 ++ l2).
  split; [now rewrite T2, T1, <- app_assoc|].
  split; [now rewrite M2, M1, <- app_assoc|].
  intros ms Hin. apply in_app_or in Hin as [Hin|Hin].
  - destruct (H1 ms Hin) as [(x & Hx) (y & Hy)]. split; [eauto|].
    exists (y ++ l2). now rewrite M2, Hy, <- app_assoc.
  - destruct (H2 ms Hin) as [(x & Hx) (y & Hy)]. split; [|eauto].
    exists (l1 ++ x). now rewrite Hx, M1, <- app_assoc.
Qed.

Lemma replays_logged_other (st : State) (e : event) :
  llm_event e = false -> replays st (logged st e).
Proof.
  intros He. exists [e], []. cbn [logged trace messages].
  rewrite List.app_nil_r. split; [reflexivity|]. split; [reflexivity|].
  intros ms [->|[]]. discriminate He.
Qed.

Lemma replays_call (st : State) : replays st (logged st (LLMCall (messages st))).
Proof.
  exists [LLMCall (messages st)], []. cbn [logged trace messages].
  rewrite List.app_nil_r. split; [reflexivity|]. split; [reflexivity|].
  intros ms [[= <-]|[]]. split; exists []; now rewrite List.app_nil_r.
Qed.

Lemma replays_appended (st : State) (c : pystr) :
  replays st (appended st assistant c).
Proof.
  exists [], [ {| role := assistant; content := c |} ].
  cbn [appended trace messages]. rewrite List.app_nil_r.
  split; [reflexivity|]. split; [reflexivity|]. intros ms [].
Qed.

Lemma run_replays (w : World) (fuel : nat) (st : State) :
  replays st (snd (process_chat w fuel st)).
Proof.
  unfold process_chat.
  apply (preserves_while_true replays replays_refl replays_trans).
  apply (preserves_loop_body w replays replays_refl replays_trans
           replays_logged_other replays_call replays_appended).
Qed.

(** X12: every conversation the loop sends to the LLM during a run
    starts with the whole conversation the run started with and is a
    prefix of the conversation the run ends with: the transcript is
    replayed in full at each call, never truncated or rewritten. *)
Theorem every_call_replays_the_conversation
    (w : World) (fuel : nat) (st : State) :
  exists tl,
    trace (snd (process_chat w fuel st)) = trace st ++ tl
    /\ forall ms, In (LLMCall ms) tl ->
         (exists a, ms = messages st ++ a)
         /\ (exists b, messages (snd (process_chat w fuel st)) = ms ++ b).
Proof.
  destruct (run_replays w fuel st) as (tl & app & T & _ & H).
  exists tl. split; assumption.
Qed.

(** X13: the trigger does nothing when the button was not pressed or
    the query is empty; otherwise it appends the query as a user
    message and runs the loop on that conversation, so that the query
    stays right after the earlier messages. *)
Theorem on_ask_guard
    (w : World) (ask_btn : bool) (user_query : pystr) (fuel : nat) (st : State) :
  (ask_btn = false \/ user_query = [] ->
   on_ask w ask_btn user_query fuel st = (Finished (Ok tt), st))
  /\ (ask_btn = true -> user_query <> [] ->
      on_ask w ask_btn user_query fuel st
      = process_chat w fuel (appended st user user_query)
      /\ exists app,
           messages (snd (on_ask w ask_btn user_query fuel st))
           = messages st ++ {| role := user; content := user_query |} :: app
           /\ Forall (fun m => role m = assistant) app).
Proof.
  split.
  - intros [-> | ->]; unfold on_ask; [reflexivity|].
    now rewrite andb_false_r.
  - intros -> Hq.
    assert (E : on_ask w true user_query fuel st
                = process_chat w fuel (appended st user user_query)).
    { unfold on_ask. destruct user_query; [congruence|reflexivity]. }
    split; [exact E|]. rewrite E.
    destruct (run_adds_assistant w fuel (appended st user user_query))
      as (app & Happ & Hrole).
    exists app. split; [|exact Hrole].
    rewrite Happ. cbn [appended messages]. now rewrite <- app_assoc.
Qed.

Lemma always_plan_round (w : World) (st : State) :
  (forall tr ms, exists reply d c,
      chat_completions_create w tr ms = Reply reply
      /\ loads reply = Some (JObj d)
      /\ dict_get d (u "step") = JStr (u "plan")
      /\ dict_lookup d (u "content") = Some c) ->
  exists st',
    loop_body w st = (Ok Continue, st')
    /\ List.length (messages st') = S (List.length (messages st)).
Proof.
  intros H. destruct (H (trace st) (messages st)) as (reply & d & c & Hllm & Hl & Hs & Hc).
  eexists. split.
  - rewrite (loop_body_parsed w st reply (JObj d) Hllm Hl).
    unfold dispatch, py_get. unfold bind at 1. unfold ret at 1. rewrite Hs.
    change (is_str (JStr (u "plan")) (u "plan")) with true. cbv iota.
    unfold bind at 1. unfold subscript. rewrite Hc. reflexivity.
  - cbn [logged after_reply after_llm appended messages].
    rewrite length_app. cbn [List.length]. lia.
Qed.

(** X14: the loop has no bound on its rounds: with an LLM that answers
    every call with a plan Step, the run is still going after any number
    of rounds, and each round has made the conversation one message
    longer. *)
Theorem loop_has_no_bound (w : World) :
  (forall tr ms, exists reply d c,
      chat_completions_create w tr ms = Reply reply
      /\ loads reply = Some (JObj d)
      /\ dict_get d (u "step") = JStr (u "plan")
      /\ dict_lookup d (u "content") = Some c) ->
  forall fuel st,
    fst (process_chat w fuel st) = Running
    /\ List.length (messages (snd (process_chat w fuel st)))
       = (List.length (messages st) + fuel)%nat.
Proof.
  intros H fuel. unfold process_chat.
  induction fuel as [|n IH]; intros st; cbn [while_true].
  - split; [reflexivity|]. cbn [snd]. lia.
  - destruct (always_plan_round w st H) as (st' & Hb & Hlen).
    rewrite Hb. destruct (IH st') as [H1 H2]. split; [exact H1|].
    rewrite H2, Hlen. lia.
Qed.

(** X15: the round trip through [json.dumps] and [json.loads], which
    the loop relies on when it re-serializes a parsed reply: a value
    whose strings are well formed and whose objects have distinct keys
    is read back unchanged from its text, and two such values never
    have the same text. *)
Theorem json_round_trip (v : json) :
  floats_ok v -> canonical v = true ->
  loads (dumps v) = Some v
  /\ forall v', floats_ok v' -> canonical v' = true ->
       dumps v' = dumps v -> v' = v.
Proof.
  intros Hf Hc. split; [now apply loads_dumps_canonical|].
  intros v' Hf' Hc' E.
  pose proof (loads_dumps_canonical v' Hf' Hc') as H'.
  rewrite E, (loads_dumps_canonical v Hf Hc) in H'. congruence.
Qed.

(** ** The fuel of the decoder is never exhausted *)

Ltac llia := unfold pystr, codepoint in *; cbn [List.length snd fst] in *; lia.

Lemma skip_ws_length (s : pystr) :
  (List.length (skip_ws s) <= List.length s)%nat.
Proof.
  induction s as [|c s IH]; simpl; [llia|].
  destruct (is_ws c); simpl; llia.
Qed.

Lemma cons_char_some (c : codepoint) (r : option (pystr * pystr))
    (str rest : pystr) :
  cons_char c r = Some (str, rest) -> exists str', r = Some (str', rest).
Proof.
  destruct r as [[s' r']|]; simpl; [|discriminate].
  intros [= _ <-]. eauto.
Qed.

Lemma scanstring_eq (s : pystr) :
  scanstring s =
  match s with
  | [] => None
  | c :: s1 =>
    if c =? 34 then Some ([], s1)
    else if c <? 32 then None
    else if c =? 92 then
      match s1 with
      | [] => None
      | e :: s2 =>
        if e =? 117 then
          match s2 with
          | h1 :: h2 :: h3 :: h4 :: s3 =>
            match decode_uXXXX h1 h2 h3 h4 with
            | None => None
            | Some uni =>
              match s3 with
              | b :: e' :: l1 :: l2 :: l3 :: l4 :: s4 =>
                if is_high_surrogate uni && (b =? 92) && (e' =? 117) then
                  match decode_uXXXX l1 l2 l3 l4 with
                  | None => None
                  | Some uni2 =>
                    if is_low_surrogate uni2
                    then cons_char (join_surrogates uni uni2) (scanstring s4)
                    else cons_char uni (scanstring s3)
                  end
                else cons_char uni (scanstring s3)
              | _ => cons_char uni (scanstring s3)
              end
            end
          | _ => None
          end
        else
          match backslash e with
          | Some ch => cons_char ch (scanstring s2)
          | None => None
          end
      end
    else cons_char c (scanstring s1)
  end.
Proof. destruct s; reflexivity. Qed.

(** [scanstring] consumes at least the closing quote. *)
Lemma scanstring_shrinks_aux (n : nat) :
  forall s str r, (List.length s <= n)%nat ->
    scanstring s = Some (str, r) -> (List.length r < List.length s)%nat.
Proof.
  induction n as [|n IH]; intros s str r Hn H.
  - destruct s; [discriminate|simpl in Hn; llia].
  - rewrite scanstring_eq in H.
    assert (Hrec : forall c t str0,
               (List.length t <= n)%nat ->
               cons_char c (scanstring t) = Some (str0, r) ->
               (List.length r < List.length t)%nat).
    { intros c t str0 Ht Hc. apply cons_char_some in Hc as (str' & Hc).
      now apply (IH t str'). }
    destruct s as [|c s1]; [discriminate|]. cbn [List.length] in *.
    destruct (c =? 34); [injection H as _ <-; llia|].
    destruct (c <? 32); [discriminate|].
    destruct (c =? 92).
    + destruct s1 as [|e s2]; [discriminate|]. cbn [List.length] in *.
      destruct (e =? 117).
      * destruct s2 as [|h1 [|h2 [|h3 [|h4 s3]]]]; try discriminate.
        cbn [List.length] in *.
        destruct (decode_uXXXX h1 h2 h3 h4) as [uni|]; [|discriminate].
        destruct s3 as [|b [|e' [|l1 [|l2 [|l3 [|l4 s4]]]]]];
          try (apply Hrec in H; cbn [List.length] in *; llia).
        destruct (is_high_surrogate uni && (b =? 92) && (e' =? 117)).
        -- destruct (decode_uXXXX l1 l2 l3 l4) as [uni2|]; [|discriminate].
           destruct (is_low_surrogate uni2);
             apply Hrec in H; cbn [List.length] in *; llia.
        -- apply Hrec in H; cbn [List.length] in *; llia.
      * destruct (backslash e); [|discriminate].
        apply Hrec in H; llia.
    + apply Hrec in H; llia.
Qed.

Lemma scanstring_shrinks (s str r : pystr) :
  scanstring s = Some (str, r) -> (List.length r < List.length s)%nat.
Proof. apply (scanstring_shrinks_aux (List.length s)). llia. Qed.

Lemma strip_prefix_length (p s r : pystr) :
  strip_prefix p s = Some r ->
  List.length s = (List.length p + List.length r)%nat.
Proof.
  revert s. induction p as [|x p IH]; intros s H; simpl in *.
  - now injection H as ->.
  - destruct s as [|y s]; [discriminate|].
    destruct (x =? y); [|discriminate]. simpl. now rewrite (IH s H).
Qed.

Lemma span_digits_length (s : pystr) :
  (List.length (snd (span_digits s)) <= List.length s)%nat.
Proof.
  induction s as [|c s IH]; simpl; [llia|].
  destruct (is_digit c); [|simpl; llia].
  destruct (span_digits s) as [ds r]. simpl in *. llia.
Qed.

Lemma match_integer_shrinks (s ds r : pystr) :
  match_integer s = Some (ds, r) -> (List.length r < List.length s)%nat.
Proof.
  assert (Hu : forall t ds0 r0,
             match t with
             | c :: r1 =>
               if c =? 48 then Some ([48], r1)
               else if is_digit c
                    then let (ds1, r') := span_digits r1 in Some (c :: ds1, r')
                    else None
             | [] => None
             end = Some (ds0, r0) ->
             (List.length r0 < List.length t)%nat).
  { intros [|c r1] ds0 r0; [discriminate|]. cbn [List.length].
    destruct (c =? 48); [intros [= _ <-]; llia|].
    destruct (is_digit c); [|discriminate].
    pose proof (span_digits_length r1) as Hl.
    destruct (span_digits r1) as [ds1 r']. intros [= _ <-]. simpl in Hl. llia. }
  unfold match_integer. destruct s as [|c r0]; [discriminate|].
  destruct (c =? 45).
  - destruct (match r0 with
              | [] => None
              | c0 :: r1 =>
                if c0 =? 48 then Some ([48], r1)
                else if is_digit c0
                     then let (ds1, r') := span_digits r1 in Some (c0 :: ds1, r')
                     else None
              end) as [[ds0 r1]|] eqn:E; [|discriminate].
    intros [= _ <-]. apply Hu in E. cbn [List.length]. llia.
  - apply (Hu (c :: r0)).
Qed.

Lemma match_frac_length (s : pystr) :
  (List.length (snd (match_frac s)) <= List.length s)%nat.
Proof.
  unfold match_frac. destruct s as [|c r]; [simpl; llia|].
  destruct (c =? 46); [|simpl; llia].
  pose proof (span_digits_length r) as Hl.
  destruct (span_digits r) as [[|d ds] r']; simpl in *; llia.
Qed.

Lemma match_exp_length (s : pystr) :
  (List.length (snd (match_exp s)) <= List.length s)%nat.
Proof.
  unfold match_exp. destruct s as [|c r]; [simpl; llia|].
  destruct ((c =? 101) || (c =? 69)); [|simpl; llia].
  destruct r as [|g r0].
  - simpl. llia.
  - destruct ((g =? 45) || (g =? 43)).
    + pose proof (span_digits_length r0) as Hl.
      destruct (span_digits r0) as [[|d ds] r']; simpl in *; llia.
    + pose proof (span_digits_length (g :: r0)) as Hl.
      destruct (span_digits (g :: r0)) as [[|d ds] r']; simpl in *; llia.
Qed.

Lemma scan_scalar_shrinks (s : pystr) (v : json) (r : pystr) :
  scan_scalar s = Some (v, r) -> (List.length r < List.length s)%nat.
Proof.
  unfold scan_scalar.
  destruct (strip_prefix (u "null") s) as [r0|] eqn:E1.
  { intros [= _ <-]. apply strip_prefix_length in E1. simpl in E1. llia. }
  destruct (strip_prefix (u "true") s) as [r0|] eqn:E2.
  { intros [= _ <-]. apply strip_prefix_length in E2. simpl in E2. llia. }
  destruct (strip_prefix (u "false") s) as [r0|] eqn:E3.
  { intros [= _ <-]. apply strip_prefix_length in E3. simpl in E3. llia. }
  unfold match_number.
  destruct (match_integer s) as [[integer r1]|] eqn:E4.
  { apply match_integer_shrinks in E4.
    pose proof (match_frac_length r1) as Hf.
    destruct (match_frac r1) as [frac r2].
    pose proof (match_exp_length r2) as He.
    destruct (match_exp r2) as [exp r3]. simpl in Hf, He.
    destruct (is_nil frac && is_nil exp); intros [= _ <-]; llia. }
  destruct (strip_prefix (u "NaN") s) as [r0|] eqn:E5.
  { intros [= _ <-]. apply strip_prefix_length in E5. simpl in E5. llia. }
  destruct (strip_prefix (u "Infinity") s) as [r0|] eqn:E6.
  { intros [= _ <-]. apply strip_prefix_length in E6. simpl in E6. llia. }
  destruct (strip_prefix (u "-Infinity") s) as [r0|] eqn:E7.
  { intros [= _ <-]. apply strip_prefix_length in E7. simpl in E7. llia. }
  discriminate.
Qed.

Lemma array_loop_shrinks (scan : pystr -> option (json * pystr)) :
  shrinking scan -> forall n, shrinking (array_loop scan n).
Proof.
  intros Hs n. induction n as [|n IH]; intros s vs r H; [discriminate|].
  cbn [array_loop] in H.
  destruct (scan s) as [[v r0]|] eqn:E; [|discriminate]. apply Hs in E.
  pose proof (skip_ws_length r0) as Hw.
  destruct (skip_ws r0) as [|c r']; [discriminate|].
  destruct (c =? 93); [injection H as _ <-; llia|].
  destruct (c =? 44); [|discriminate].
  pose proof (skip_ws_length r') as Hw'.
  destruct (array_loop scan n (skip_ws r')) as [[vs' r'']|] eqn:E'; [|discriminate].
  injection H as _ <-. apply IH in E'. llia.
Qed.

Lemma JSONArray_shrinks (scan : pystr -> option (json * pystr)) :
  shrinking scan -> forall n, shrinking (JSONArray scan n).
Proof.
  intros Hs n s l r H. unfold JSONArray in H.
  pose proof (skip_ws_length s) as Hw.
  destruct (skip_ws s) as [|c r0]; [discriminate|].
  destruct (c =? 93); [injection H as _ <-; llia|].
  apply (array_loop_shrinks scan Hs) in H. llia.
Qed.

Lemma object_loop_shrinks (scan : pystr -> option (json * pystr)) :
  shrinking scan -> forall n, shrinking (object_loop scan n).
Proof.
  intros Hs n. induction n as [|n IH]; intros s kvs r H; [discriminate|].
  cbn [object_loop] in H.
  destruct (scanstring s) as [[key r0]|] eqn:E0; [|discriminate].
  apply scanstring_shrinks in E0.
  pose proof (skip_ws_length r0) as W0.
  destruct (skip_ws r0) as [|c0 r1]; [discriminate|].
  destruct (c0 =? 58); [|discriminate].
  pose proof (skip_ws_length r1) as W1.
  destruct (scan (skip_ws r1)) as [[v r2]|] eqn:E1; [|discriminate].
  apply Hs in E1.
  pose proof (skip_ws_length r2) as W2.
  destruct (skip_ws r2) as [|c r3]; [discriminate|].
  destruct (c =? 125); [injection H as _ <-; llia|].
  destruct (c =? 44); [|discriminate].
  pose proof (skip_ws_length r3) as W3.
  destruct (skip_ws r3) as [|q r4]; [discriminate|].
  destruct (q =? 34); [|discriminate].
  destruct (object_loop scan n r4) as [[kvs' r5]|] eqn:E2; [|discriminate].
  injection H as _ <-. apply IH in E2. llia.
Qed.

Lemma JSONObject_shrinks (scan : pystr -> option (json * pystr)) :
  shrinking scan -> forall n, shrinking (JSONObject scan n).
Proof.
  intros Hs n s d r H. unfold JSONObject in H.
  pose proof (skip_ws_length s) as Hw.
  destruct (skip_ws s) as [|c r0]; [discriminate|].
  destruct (c =? 125); [injection H as _ <-; llia|].
  destruct (c =? 34); [|discriminate].
  destruct (object_loop scan n r0) as [[pairs r']|] eqn:E; [|discriminate].
  injection H as _ <-. apply (object_loop_shrinks scan Hs) in E. llia.
Qed.

Lemma scan_once_shrinks (fuel : nat) : shrinking (scan_once fuel).
Proof.
  induction fuel as [|n IH]; intros s v r H; [discriminate|].
  cbn [scan_once] in H. destruct s as [|c r0]; [discriminate|].
  destruct (c =? 34).
  { destruct (scanstring r0) as [[str r']|] eqn:E; [|discriminate].
    injection H as _ <-. apply scanstring_shrinks in E. llia. }
  destruct (c =? 123).
  { destruct (JSONObject (scan_once n) n r0) as [[d r']|] eqn:E; [|discriminate].
    injection H as _ <-. apply (JSONObject_shrinks _ IH) in E. llia. }
  destruct (c =? 91).
  { destruct (JSONArray (scan_once n) n r0) as [[l r']|] eqn:E; [|discriminate].
    injection H as _ <-. apply (JSONArray_shrinks _ IH) in E. llia. }
  now apply scan_scalar_shrinks in H.
Qed.

Lemma array_loop_fuel (scan1 scan2 : pystr -> option (json * pystr)) :
  shrinking scan1 ->
  forall n1 n2 s,
    (forall t, (List.length t <= List.length s)%nat -> scan1 t = scan2 t) ->
    (List.length s < n1)%nat -> (List.length s < n2)%nat ->
    array_loop scan1 n1 s = array_loop scan2 n2 s.
Proof.
  intros Hs n1. induction n1 as [|n1 IH]; intros n2 s Hag H1 H2; [lia|].
  destruct n2 as [|n2]; [lia|]. cbn [array_loop].
  rewrite <- (Hag s) by lia.
  destruct (scan1 s) as [[v r0]|] eqn:E; [|reflexivity]. apply Hs in E.
  pose proof (skip_ws_length r0) as Hw.
  destruct (skip_ws r0) as [|c r']; [reflexivity|].
  destruct (c =? 93); [reflexivity|].
  destruct (c =? 44); [|reflexivity].
  pose proof (skip_ws_length r') as Hw'.
  rewrite (IH n2 (skip_ws r')); [reflexivity| | |].
  - intros t Ht. apply Hag. llia.
  - llia.
  - llia.
Qed.

Lemma JSONArray_fuel (scan1 scan2 : pystr -> option (json * pystr)) :
  shrinking scan1 ->
  forall n1 n2 s,
    (forall t, (List.length t <= List.length s)%nat -> scan1 t = scan2 t) ->
    (List.length s < n1)%nat -> (List.length s < n2)%nat ->
    JSONArray scan1 n1 s = JSONArray scan2 n2 s.
Proof.
  intros Hs n1 n2 s Hag H1 H2. unfold JSONArray.
  pose proof (skip_ws_length s) as Hw.
  destruct (skip_ws s) as [|c r0]; [reflexivity|].
  destruct (c =? 93); [reflexivity|].
  apply (array_loop_fuel scan1 scan2 Hs).
  - intros t Ht. apply Hag. llia.
  - llia.
  - llia.
Qed.

Lemma object_loop_fuel (scan1 scan2 : pystr -> option (json * pystr)) :
  shrinking scan1 ->
  forall n1 n2 s,
    (forall t, (List.length t <= List.length s)%nat -> scan1 t = scan2 t) ->
    (List.length s < n1)%nat -> (List.length s < n2)%nat ->
    object_loop scan1 n1 s = object_loop scan2 n2 s.
Proof.
  intros Hs n1. induction n1 as [|n1 IH]; intros n2 s Hag H1 H2; [lia|].
  destruct n2 as [|n2]; [lia|]. cbn [object_loop].
  destruct (scanstring s) as [[key r0]|] eqn:E0; [|reflexivity].
  apply scanstring_shrinks in E0.
  pose proof (skip_ws_length r0) as W0.
  destruct (skip_ws r0) as [|c0 r1]; [reflexivity|].
  destruct (c0 =? 58); [|reflexivity].
  pose proof (skip_ws_length r1) as W1.
  rewrite <- (Hag (skip_ws r1)) by llia.
  destruct (scan1 (skip_ws r1)) as [[v r2]|] eqn:E1; [|reflexivity].
  apply Hs in E1.
  pose proof (skip_ws_length r2) as W2.
  destruct (skip_ws r2) as [|c r3]; [reflexivity|].
  destruct (c =? 125); [reflexivity|].
  destruct (c =? 44); [|reflexivity].
  pose proof (skip_ws_length r3) as W3.
  destruct (skip_ws r3) as [|q r4]; [reflexivity|].
  destruct (q =? 34); [|reflexivity].
  rewrite (IH n2 r4); [reflexivity| | |].
  - intros t Ht. apply Hag. llia.
  - llia.
  - llia.
Qed.

Lemma JSONObject_fuel (scan1 scan2 : pystr -> option (json * pystr)) :
  shrinking scan1 ->
  forall n1 n2 s,
    (forall t, (List.length t <= List.length s)%nat -> scan1 t = scan2 t) ->
    (List.length s < n1)%nat -> (List.length s < n2)%nat ->
    JSONObject scan1 n1 s = JSONObject scan2 n2 s.
Proof.
  intros Hs n1 n2 s Hag H1 H2. unfold JSONObject.
  pose proof (skip_ws_length s) as Hw.
  destruct (skip_ws s) as [|c r0]; [reflexivity|].
  destruct (c =? 125); [reflexivity|].
  destruct (c =? 34); [|reflexivity].
  rewrite (object_loop_fuel scan1 scan2 Hs n1 n2 r0); [reflexivity| | |].
  - intros t Ht. apply Hag. llia.
  - llia.
  - llia.
Qed.

(** More fuel than the length of the text never changes what the
    decoder reads: a result [None] of [loads] is an error of the text,
    not a lack of fuel. *)
Lemma scan_once_fuel (n : nat) :
  forall m s, (List.length s < n)%nat -> (List.length s < m)%nat ->
    scan_once n s = scan_once m s.
Proof.
  induction n as [|n IH]; intros m s Hn Hm; [lia|].
  destruct m as [|m]; [lia|]. cbn [scan_once].
  destruct s as [|c r0]; [reflexivity|].
  destruct (c =? 34); [reflexivity|].
  assert (Hag : forall t, (List.length t <= List.length r0)%nat ->
                          scan_once n t = scan_once m t).
  { intros t Ht. apply IH; llia. }
  destruct (c =? 123).
  { rewrite (JSONObject_fuel (scan_once n) (scan_once m) (scan_once_shrinks n)
               n m r0 Hag); [reflexivity|llia|llia]. }
  destruct (c =? 91).
  { rewrite (JSONArray_fuel (scan_once n) (scan_once m) (scan_once_shrinks n)
               n m r0 Hag); [reflexivity|llia|llia]. }
  reflexivity.
Qed.

Lemma loads_fuel (s : pystr) (n : nat) :
  (List.length s < n)%nat ->
  loads s
  = match scan_once n (skip_ws s) with
    | Some (v, r) => if is_nil (skip_ws r) then Some v else None
    | None => None
    end.
Proof.
  intros Hn. unfold loads.
  pose proof (skip_ws_length s) as Hw.
  rewrite (scan_once_fuel (S (List.length s)) n (skip_ws s)); [reflexivity| |];
    llia.
Qed.

End Facts.

(** ** The statements on the scenarios *)

Module Scenarios.
Import Demo.
#[local] Existing Instance demo_float.

Lemma demo_float_ok : forall f : pyfloat, float_ok f.
Proof. intros [] fuel rest _. reflexivity. Qed.

(** Scenario A: the weather tool is called on "Lahore" and the observe
    Step holds its sentence. *)
Lemma action_invokes_registered_tool_witness :
  loop_body world_a st0
  = (Ok Continue,
     after_observe
       (logged (after_reply st0 (JObj parsed_action))
               (HttpGet (weather_url (JStr (u "Lahore")))))
       lahore_sentence).
Proof.
  refine (proj1 (action_invokes_registered_tool world_a st0 reply_action
                   parsed_action (u "get_weather") (JStr (u "Lahore"))
                   weather_tool lahore_sentence _ _ _ _ _ _ _ _));
    vm_compute; reflexivity.
Defined.

(** An action naming a tool that is not registered. *)
Lemma action_unknown_tool_continues_witness :
  loop_body world_unknown st0
  = (Ok Continue, after_reply st0 (JObj parsed_unknown)).
Proof.
  refine (proj1 (action_unknown_tool_continues world_unknown st0 reply_unknown
                   parsed_unknown (JStr (u "get_time")) _ _ _ _ _ _));
    try (vm_compute; reflexivity).
  intros name [= <-]. vm_compute; reflexivity.
Defined.

(** The final answer. *)
Lemma output_terminates_witness :
  loop_body world_output st0
  = (Ok Break,
     logged (after_reply st0 (JObj parsed_output))
            (Show st_markdown (final_answer (u "It is sunny in Lahore.")))).
Proof.
  refine (proj1 (output_terminates world_output st0 reply_output parsed_output
                   (u "It is sunny in Lahore.") _ _ _ _));
    vm_compute; reflexivity.
Defined.

(** A plan without content. *)
Lemma missing_content_raises_witness :
  loop_body world_bare_plan st0
  = (Raise (KeyError (u "content")),
     after_reply st0 (JObj [(u "step", JStr (u "plan"))])).
Proof.
  refine (proj1 (missing_content_raises world_bare_plan st0 reply_bare_plan
                   [(u "step", JStr (u "plan"))] (u "plan") _ _ _
                   (or_introl eq_refl) _));
    vm_compute; reflexivity.
Defined.

(** Scenario D: the reply hello is kept as it came and the loop stops. *)
Lemma invalid_json_stops_witness :
  loop_body world_hello st0 = (Ok Break, after_parse_error st0 (u "hello")).
Proof.
  refine (proj1 (invalid_json_stops world_hello st0 (u "hello") _ _));
    vm_compute; reflexivity.
Defined.

(** A reply that is valid JSON but not a Step is not handled as the
    specification says: the empty object written with a blank is
    appended in its canonical form, and a number makes the round raise
    [AttributeError]. *)
Lemma not_a_step_is_not_recovered :
  matches_step_shape (u "{ }") = false
  /\ ~ recovers_with_raw_text world_blank_object st0 (u "{ }")
  /\ matches_step_shape (u "42") = false
  /\ fst (process_chat world_number 1 st0) = Finished (Raise AttributeError).
Proof.
  split; [vm_compute; reflexivity|]. split.
  - intros (st' & H & Hm). specialize (H 0%nat).
    vm_compute in H. injection H as <-. vm_compute in Hm. discriminate.
  - split; vm_compute; reflexivity.
Qed.

(** A run with a plan, an action and an output. *)
Lemma appended_messages_are_json_witness :
  exists app,
    messages (snd (process_chat world_full 5 st0)) = messages st0 ++ app
    /\ Forall (fun m => role m = assistant) app
    /\ (Forall json_message app
        \/ exists app' raw,
             app = app' ++ [ {| role := assistant; content := raw |} ]
             /\ Forall json_message app'
             /\ loads raw = None
             /\ fst (process_chat world_full 5 st0) = Finished (Ok tt)).
Proof. exact (appended_messages_are_json world_full 5 st0 demo_float_ok). Defined.

(** The empty object is parsed, appended and is no Step. *)
Lemma appended_message_is_no_step :
  loads (u "{}") = Some (JObj [])
  /\ messages (snd (process_chat world_empty_object 1 st0))
     = messages st0 ++ [ {| role := assistant; content := u "{}" |} ]
  /\ matches_step_shape (u "{}") = false.
Proof. repeat split; vm_compute; reflexivity. Qed.

(** Scenario A for the weather tool alone. *)
Lemma get_weather_success_witness :
  fst (get_weather world_a (JStr (u "Lahore")) st0) = Ok lahore_sentence.
Proof.
  refine (proj2 (proj2 (get_weather_success world_a st0 (u "Lahore") sunny _ _))
            eq_refl eq_refl);
    vm_compute; reflexivity.
Defined.

(** A body with a final line feed is not embedded as it came. *)
Lemma raw_body_is_not_embedded :
  fst (get_weather world_newline (JStr (u "Lahore")) st0)
  <> Ok (u "🌦️ The weather in **Lahore** is `" ++ text sunny_newline ++ u "`.")
  /\ fst (get_weather world_newline (JStr (u "Lahore")) st0) = Ok lahore_sentence.
Proof. split; vm_compute; [discriminate|reflexivity]. Qed.

(** Scenario C. *)
Lemma get_weather_failure_witness :
  get_weather world_404 (JStr (u "Lahore")) st0
  = (Ok (u "❌ Unable to fetch weather at the moment."),
     logged st0 (HttpGet (weather_url (JStr (u "Lahore"))))).
Proof.
  refine (get_weather_failure world_404 st0 (JStr (u "Lahore")) not_found _ _).
  - vm_compute; reflexivity.
  - vm_compute; discriminate.
Defined.

(** Four items, the fourth without a link: three blocks. *)
Lemma google_search_success_witness :
  fst (google_search world_search (JStr (u "rocq")) st0)
  = Ok (join [10; 10] (map result_block (firstn 3 search_items))).
Proof.
  refine (f_equal fst
            (proj1 (google_search_success world_search st0 (u "rocq")
                      search_answer [(u "items", JArr search_items)]
                      search_items _ _ _ _ _)));
    try (vm_compute; reflexivity).
  repeat constructor; do 3 eexists; repeat split; vm_compute; reflexivity.
Defined.

(** The observe Step of Scenario A. *)
Lemma step_round_trip_well_formed_witness :
  step_round_trip step_observe = Some step_observe.
Proof.
  refine (step_round_trip_well_formed step_observe _). vm_compute; reflexivity.
Defined.

(** A content of two surrogate code points comes back as one
    character. *)
Lemma surrogate_step_changes :
  step_round_trip step_surrogates
  = Some {| step_tag := output; step_content := [0x1F326];
            step_function := None; step_input := None |}
  /\ step_round_trip step_surrogates <> Some step_surrogates.
Proof. split; vm_compute; [reflexivity|discriminate]. Qed.


(** *** The further properties on the scenarios *)

Lemma plan_continues_witness :
  loop_body world_full st0
  = (Ok Continue,
     logged (after_reply st0 (JObj parsed_plan))
            (Show st_info (u "📌 **Plan**: " ++ u "Look up the weather."))).
Proof.
  refine (proj1 (plan_continues world_full st0 reply_plan parsed_plan
                   (JStr (u "Look up the weather.")) _ _ _ _));
    vm_compute; reflexivity.
Defined.

Lemma unrecognized_step_stops_witness :
  loop_body world_empty_object st0
  = (Ok Break,
     logged (after_reply st0 (JObj []))
            (Show st_warning (u "⚠️ Unrecognized step."))).
Proof.
  refine (proj1 (unrecognized_step_stops world_empty_object st0 (u "{}") []
                   _ _ _ _ _));
    vm_compute; reflexivity.
Defined.

Lemma non_object_reply_raises_witness :
  loop_body world_number st0
  = (Raise AttributeError, after_reply st0 (JInt 42)).
Proof.
  refine (proj1 (non_object_reply_raises world_number st0 (u "42") (JInt 42)
                   _ _ _)).
  - vm_compute; reflexivity.
  - vm_compute; reflexivity.
  - discriminate.
Defined.

Lemma unhashable_function_raises_witness :
  loop_body world_list_function st0
  = (Raise TypeError, after_reply st0 (JObj parsed_list_function)).
Proof.
  refine (proj1 (unhashable_function_raises world_list_function st0
                   reply_list_function parsed_list_function _ _ _ _));
    vm_compute; reflexivity.
Defined.

Lemma llm_failure_ends_run_witness :
  process_chat world_no_llm 1 st0 = (Finished (Raise APIError), after_llm st0).
Proof.
  refine (proj1 (llm_failure_ends_run world_no_llm st0 APIFault _ _) 0%nat).
  - vm_compute; reflexivity.
  - discriminate.
Defined.

Lemma tool_exception_ends_run_witness :
  loop_body world_search_html st0
  = (Raise JSONDecodeError,
     logged (after_reply st0 (JObj parsed_search))
            (HttpGet (search_url world_search_html (JStr (u "rocq"))))).
Proof.
  refine (proj1 (tool_exception_ends_run world_search_html st0 reply_search
                   parsed_search (u "google_search") search_tool
                   JSONDecodeError _ _ _ _ _ _ _));
    vm_compute; reflexivity.
Defined.

Lemma google_search_failure_witness :
  google_search world_404 (JStr (u "rocq")) st0
  = (Ok (u "❌ Search failed: " ++ int_str 404 ++ u " - " ++ u "Not Found"),
     logged st0 (HttpGet (search_url world_404 (JStr (u "rocq"))))).
Proof.
  refine (proj1 (google_search_failure world_404 st0 (JStr (u "rocq"))
                   not_found _ _)).
  - vm_compute; reflexivity.
  - vm_compute; discriminate.
Defined.

Lemma google_search_bad_body_raises_witness :
  fst (google_search world_html (JStr (u "rocq")) st0) = Raise JSONDecodeError.
Proof.
  refine (f_equal fst
            (google_search_bad_body_raises world_html st0 (JStr (u "rocq"))
               html_page _ _ _)).
  - vm_compute; reflexivity.
  - vm_compute; reflexivity.
  - intros d. vm_compute. discriminate.
Defined.

Lemma google_search_item_without_key_witness :
  fst (google_search world_broken (JStr (u "rocq")) st0)
  = Raise (KeyError (u "link")).
Proof.
  refine (f_equal fst
            (google_search_item_without_key world_broken st0 (JStr (u "rocq"))
               broken_answer
               [(u "items",
                 JArr ([search_item "A" "http://a"]
                         ++ JObj [(u "title", JStr (u "B"))]
                         :: [search_item "C" "http://c"]))]
               [(u "title", JStr (u "B"))]
               [search_item "A" "http://a"] [search_item "C" "http://c"]
               (u "link") _ _ _ _ _ _ _));
    try (vm_compute; reflexivity).
  - vm_compute. lia.
  - repeat constructor; do 3 eexists; repeat split; vm_compute; reflexivity.
Defined.

Lemma on_ask_guard_witness :
  on_ask world_output true (u "") 3 st0 = (Finished (Ok tt), st0).
Proof.
  refine (proj1 (on_ask_guard world_output true (u "") 3 st0) (or_intror _)).
  vm_compute; reflexivity.
Defined.

Lemma loop_has_no_bound_witness :
  fst (process_chat world_always_plan 25 st0) = Running.
Proof.
  refine (proj1 (loop_has_no_bound world_always_plan _ 25%nat st0)).
  intros tr ms. exists reply_plan, parsed_plan, (JStr (u "Look up the weather.")).
  repeat split; vm_compute; reflexivity.
Defined.

Lemma json_round_trip_witness : loads (dumps nested_value) = Some nested_value.
Proof.
  refine (proj1 (json_round_trip nested_value _ _)).
  - unfold floats_ok. vm_compute. constructor.
  - vm_compute; reflexivity.
Defined.

End Scenarios.
